(** * tiff2jpg: a shallow embedding of the TIFF-to-JPEG conversion service

    The development follows [src/tiff2jpg.py]: the two validators
    ([allowed_file], [check_file_size]), the converter
    ([convert_tif_to_jpg]) and the two request handlers ([convert_image],
    [batch_convert_images]).  Python values are modelled as follows.

    - [str] is [string]; a character is a code point below 256.
    - [int] is [Z].
    - an uploaded file (werkzeug's [FileStorage]) is a record holding its
      name, the bytes of its stream and the stream's read position.
    - the file system is a finite map from paths to file contents, together
      with the trace of writes and deletes performed on it.
    - code that may raise runs in a state-and-exception monad [M]; Python's
      [try ... except Exception] is [try_except].
    - Pillow, werkzeug and the disk are external: what they compute is a
      field of the record [Platform], over which every handler is
      parameterised.  The size [Image.thumbnail] chooses is computed here as
      Pillow computes it, in IEEE 754 doubles ([Double], [PIL]). *)

From Stdlib Require Import ZArith QArith Qround Qabs Qpower Ascii String List Lia Lqa.
From stdpp Require Import base gmap strings list pretty.

Open Scope string_scope.
Open Scope Z_scope.

(** ** Python strings *)

Module PyStr.

(** [c in s] for a one-character needle [c]. *)
Fixpoint contains (c : ascii) (s : string) : bool :=
  match s with
  | EmptyString => false
  | String d r => if ascii_dec c d then true else contains c r
  end.

(** [s.rsplit(c, 1)] when [c] occurs in [s]: the text before the last [c]
    and the text after it; [None] when [c] does not occur. *)
Fixpoint rsplit_last (c : ascii) (s : string) : option (string * string) :=
  match s with
  | EmptyString => None
  | String d r =>
      match rsplit_last c r with
      | Some (pre, suf) => Some (String d pre, suf)
      | None => if ascii_dec c d then Some (EmptyString, r) else None
      end
  end.

(** [s.rsplit(c, 1)]: a list of one or two strings. *)
Definition rsplit1 (c : ascii) (s : string) : list string :=
  match rsplit_last c s with
  | Some (pre, suf) => [pre; suf]
  | None => [s]
  end.

(** [str.lower] on one code point below 256: the ASCII capitals and the
    Latin-1 capitals (0xC0..0xDE without the multiplication sign 0xD7)
    move up by 32, every other code point is kept. *)
Definition lower_char (c : ascii) : ascii :=
  let n := N_of_ascii c in
  if ((65 <=? n) && (n <=? 90))%N then ascii_of_N (n + 32)
  else if ((192 <=? n) && (n <=? 222) && negb (n =? 215))%N then ascii_of_N (n + 32)
  else c.

Fixpoint lower (s : string) : string :=
  match s with
  | EmptyString => EmptyString
  | String c r => String (lower_char c) (lower r)
  end.

End PyStr.

(** ** Settings (lines 17-23) *)

Definition UPLOAD_FOLDER : string := "uploads".
Definition OUTPUT_FOLDER : string := "converted".
Definition ALLOWED_EXTENSIONS : gset string := {[ "tif"; "tiff" ]}.
Definition MAX_INPUT_FILE_SIZE : Z := 1 * 1024 * 1024 * 1024.
Definition MAX_OUTPUT_FILE_SIZE : Z := 10 * 1024 * 1024.

(** ** Uploaded files *)

(** werkzeug's [FileStorage]: the client's file name and a seekable binary
    stream, that is its bytes and the current read position. *)
Record FileStorage := mkFile {
  filename : string;
  stream : list Byte.byte;
  position : Z
}.

Definition SEEK_SET : Z := 0.
Definition SEEK_END : Z := 2.

Definition stream_length (f : FileStorage) : Z := Z.of_nat (length (stream f)).

(** [file.seek(offset, whence)] for the two origins the program uses; a
    position is never negative. *)
Definition seek (offset whence : Z) (f : FileStorage) : FileStorage :=
  let base := if whence =? SEEK_END then stream_length f else 0 in
  mkFile (filename f) (stream f) (Z.max 0 (base + offset)).

(** [file.tell()]. *)
Definition tell (f : FileStorage) : Z := position f.

(** [file.read()]: the bytes from the read position to the end; the
    position moves to the end. *)
Definition read (f : FileStorage) : list Byte.byte * FileStorage :=
  (drop (Z.to_nat (position f)) (stream f),
   mkFile (filename f) (stream f) (Z.max (position f) (stream_length f))).

(** ** Validators (lines 29-38) *)

(** [allowed_file]: the subscript [[1]] is guarded by ['.' in filename];
    without a second component Python would raise [IndexError], which
    [rsplit1_second] shows cannot happen behind the guard. *)
Definition allowed_file (filename : string) : bool :=
  PyStr.contains "." filename &&
  match PyStr.rsplit1 "." filename !! 1%nat with
  | Some ext => bool_decide (PyStr.lower ext ∈ ALLOWED_EXTENSIONS)
  | None => false
  end.

(** [check_file_size]: the answer and the stream as the call leaves it. *)
Definition check_file_size (file : FileStorage) : bool * FileStorage :=
  let file := seek 0 SEEK_END file in
  let size := tell file in
  let file := seek 0 SEEK_SET file in
  (size <=? MAX_INPUT_FILE_SIZE, file).

(** ** The file system and the exception monad *)

(** What happened to the file system: a path was written, a path was
    deleted, or a delete found nothing at its path (and raised). *)
Inductive fs_event :=
  | EvWrite (path : string)
  | EvRemove (path : string)
  | EvRemoveMissing (path : string).

Record world := mkWorld {
  files : gmap string (list Byte.byte);
  trace : list fs_event
}.

Inductive exn :=
  | FileNotFoundError
  | OSError
  | KeyError
  | UnidentifiedImageError
  | ZeroDivisionError
  | ValueError.

(** A computation over a state [S] reads and changes the state and either
    raises or returns; what it did before raising stays done. *)
Definition St (S A : Type) : Type := S -> (exn + A) * S.

(** The computations of the converter and of the single-file handler: their
    state is the world. *)
Definition M (A : Type) : Type := St world A.

Definition ret {S A} (a : A) : St S A := fun s => (inr a, s).

Definition raise {S A} (e : exn) : St S A := fun s => (inl e, s).

Definition bind {S A B} (m : St S A) (k : A -> St S B) : St S B :=
  fun s =>
    match m s with
    | (inr a, s') => k a s'
    | (inl e, s') => (inl e, s')
    end.

(** [try: body except Exception: handler]. *)
Definition try_except {S A} (body : St S A) (handler : exn -> St S A) : St S A :=
  fun s =>
    match body s with
    | (inr a, s') => (inr a, s')
    | (inl e, s') => handler e s'
    end.

Declare Scope py_scope.
Delimit Scope py_scope with py.
Notation "x <~ m ; k" := (bind m (fun x => k))
  (at level 20, m at level 100, k at level 200, only parsing) : py_scope.
Notation "m ;; k" := (bind m (fun _ => k))
  (at level 100, k at level 200, only parsing, right associativity) : py_scope.
Open Scope py_scope.

(** [for x in l: body(x)]. *)
Fixpoint for_each {S A} (body : A -> St S unit) (l : list A) : St S unit :=
  match l with
  | [] => ret tt
  | x :: rest => body x;; for_each body rest
  end.

(** *** [os] and [os.path] *)

Definition write_file (path : string) (data : list Byte.byte) (w : world) : world :=
  mkWorld (<[path := data]> (files w)) (trace w ++ [EvWrite path]).

(** What a failed write leaves at its path: nothing new, or some bytes. *)
Definition leave (path : string) (residue : option (list Byte.byte)) (w : world) : world :=
  match residue with
  | Some data => write_file path data w
  | None => w
  end.

Definition os_path_exists (path : string) : M bool :=
  fun w => (inr (bool_decide (is_Some (files w !! path))), w).

(** [os.remove] raises when there is no file at the path. *)
Definition os_remove (path : string) : M unit :=
  fun w =>
    match files w !! path with
    | Some _ => (inr tt, mkWorld (delete path (files w)) (trace w ++ [EvRemove path]))
    | None => (inl FileNotFoundError, mkWorld (files w) (trace w ++ [EvRemoveMissing path]))
    end.

Definition os_path_getsize (path : string) : M Z :=
  fun w =>
    match files w !! path with
    | Some data => (inr (Z.of_nat (length data)), w)
    | None => (inl FileNotFoundError, w)
    end.

Definition ends_with_slash (s : string) : bool :=
  match String.get (String.length s - 1) s with
  | Some c => if ascii_dec c "/" then true else false
  | None => false
  end.

(** POSIX [os.path.join] of two components: an absolute second component
    replaces the first. *)
Definition os_path_join (a b : string) : string :=
  if String.prefix "/" b then b
  else if String.eqb a "" || ends_with_slash a then a +:+ b
  else a +:+ "/" +:+ b.

(** *** Pillow *)

Record Image := mkImage {
  width : Z;
  height : Z;
  raster : list Byte.byte
}.

Inductive encode_result :=
  | Encoded (data : list Byte.byte)
  | EncodeError (residue : option (list Byte.byte)).

Inductive io_fault :=
  | NoFault
  | Fault (residue : option (list Byte.byte)).

(** What the libraries and the disk contribute.  [secure_filename] is
    werkzeug's; it replaces path separators, so its result is never an
    absolute path.  [image_open] is Pillow's decoder ([None]: the bytes are
    not an image it can read), [resample] its Lanczos filter, [jpeg_encode]
    its JPEG writer with the quality and optimize arguments.  [write_fault]
    says whether writing a path fails in a given world (disk full, no
    permission) and [send_fault] whether handing a file to the transport
    fails. *)
Record Platform := mkPlatform {
  secure_filename : string -> string;
  secure_filename_relative : forall s, String.prefix "/" (secure_filename s) = false;
  image_open : list Byte.byte -> option Image;
  resample : Image -> Z * Z -> list Byte.byte;
  jpeg_encode : Image -> Z -> bool -> encode_result;
  write_fault : world -> string -> io_fault;
  send_fault : world -> string -> bool
}.

(** *** Python floats in messages *)

Module PyFloat.

(** The nearest integer, a tie going to the even one. *)
Definition round_half_even (q : Q) : Z :=
  let lo := Qfloor q in
  match (q - inject_Z lo ?= 1 # 2)%Q with
  | Lt => lo
  | Gt => lo + 1
  | Eq => if Z.even lo then lo else lo + 1
  end.

(** [n / (1024 * 1024)]: dividing by a power of two is exact for every
    size below 2^53. *)
Definition megabytes (n : Z) : Q := (inject_Z n / inject_Z (1024 * 1024))%Q.

(** [f"{q:.1f}"] for [q >= 0]: one correctly rounded decimal. *)
Definition format_1f (q : Q) : string :=
  let tenths := round_half_even (q * 10)%Q in
  pretty (tenths / 10) +:+ "." +:+ pretty (tenths mod 10).

(** [round(q, 2)]: the value in hundredths. *)
Definition round2 (q : Q) : Q := (inject_Z (round_half_even (q * 100)) / 100)%Q.

(** [str(q)] when [q] is a whole number [n]. *)
Definition str_integral (n : Z) : string := pretty n +:+ ".0".

End PyFloat.

(** *** IEEE 754 doubles

    Python's [float] is the IEEE 754 binary64 format.  A double is modelled
    by the rational it denotes, and an operation by the exact operation
    followed by the rounding of the format: to 53 significant bits, a tie
    going to the even significand.  The exponent is not limited, so there is
    neither overflow nor underflow; the operands that [Image.thumbnail]
    meets for image sides between 1 and 2^31 are far from both. *)

Module Double.

Definition pow2 (e : Z) : Q := (2 ^ e)%Q.

(** The exponent [e] of the unit in the last place of a positive [q]:
    [2^52 <= q / 2^e < 2^53].  The bit lengths of the numerator and the
    denominator give it to within one. *)
Definition exponent (q : Q) : Z :=
  let e0 := Z.log2 (Qnum q) - Z.log2 (Z.pos (Qden q)) - 52 in
  if Qle_bool (pow2 52) (q * pow2 (- e0)) then e0 else e0 - 1.

(** The double nearest to [q]. *)
Definition round53 (q : Q) : Q :=
  if Qeq_bool q 0 then 0%Q
  else
    let e := exponent (Qabs q) in
    (inject_Z (PyFloat.round_half_even (q * pow2 (- e))) * pow2 e)%Q.

(** [float(n)] for an [int]. *)
Definition of_int (n : Z) : Q := round53 (inject_Z n).

(** [a / b], [a * b] and [a - b] on floats; [div] applied to two integers
    is also Python's correctly rounded [int / int]. *)
Definition div (a b : Q) : Q := round53 (a / b).
Definition mul (a b : Q) : Q := round53 (a * b).
Definition sub (a b : Q) : Q := round53 (a - b).

End Double.

(** *** The size of a thumbnail *)

Module PIL.

(** [round_aspect] of [Image.thumbnail]:
    [max(min(math.floor(number), math.ceil(number), key=key), 1)]; of two
    candidates with the same key [min] returns the first. *)
Definition round_aspect (number : Q) (key : Z -> Q) : Z :=
  let lo := Qfloor number in
  let hi := Qceiling number in
  Z.max (if Qle_bool (key lo) (key hi) then lo else hi) 1.

(** The size [Image.thumbnail(size)] gives an image of [w] by [h] pixels,
    [None] when it leaves the image alone: the rule [preserve_aspect_ratio]
    of Pillow 9.1 and later (the source names [Image.Resampling], which
    older versions lack), for a decoder without draft mode such as the TIFF
    one.  As in Pillow, [aspect], the products and quotients and the keys
    are doubles:

    [aspect = self.width / self.height]
    [if x / y >= aspect:]
    [    x = round_aspect(y * aspect, key=lambda n: abs(aspect - n / y))]
    [else:]
    [    y = round_aspect(x / aspect,]
    [                     key=lambda n: 0 if n == 0 else abs(aspect - x / n))] *)
Definition thumbnail_size (w h : Z) (size : Z * Z) : exn + option (Z * Z) :=
  let '(x, y) := size in
  if (x >=? w) && (y >=? h) then inr None
  else if (h =? 0) || (y =? 0) then inl ZeroDivisionError
  else
    let aspect := Double.div (inject_Z w) (inject_Z h) in
    if Qle_bool aspect (Double.div (inject_Z x) (inject_Z y)) then
      inr (Some (round_aspect (Double.mul (Double.of_int y) aspect)
                   (fun n => Qabs (Double.sub aspect
                                     (Double.div (inject_Z n) (inject_Z y)))), y))
    else if Qeq_bool aspect 0 then inl ZeroDivisionError
    else
      inr (Some (x, round_aspect (Double.div (Double.of_int x) aspect)
                      (fun n => if n =? 0 then 0%Q
                                else Qabs (Double.sub aspect
                                             (Double.div (inject_Z x) (inject_Z n)))))).

End PIL.

(** *** Requests and responses *)

(** werkzeug's [MultiDict] of uploaded files: fields in the order sent, a
    field name possibly repeated. *)
Definition MultiDict := list (string * FileStorage).

(** [key in d]. *)
Definition md_contains (key : string) (d : MultiDict) : bool :=
  existsb (fun kv => String.eqb (fst kv) key) d.

(** [d.getlist(key)]. *)
Fixpoint md_getlist (key : string) (d : MultiDict) : list FileStorage :=
  match d with
  | [] => []
  | (k, file) :: rest =>
      if String.eqb k key then file :: md_getlist key rest else md_getlist key rest
  end.

(** [d[key]]: the first value of the field. *)
Definition md_get (key : string) (d : MultiDict) : M FileStorage :=
  match md_getlist key d with
  | file :: _ => ret file
  | [] => raise KeyError
  end.

Record success_entry := mkSuccess {
  s_filename : string;
  s_output_path : string;
  s_output_size_mb : Q
}.

Record failure_entry := mkFailure {
  f_filename : string;
  f_reason : string
}.

(** The dict [response] of the batch handler. *)
Record batch_response := mkBatch {
  successful_conversions : list success_entry;
  failed_conversions : list failure_entry
}.

Inductive body :=
  | ErrorJson (error : string)
  | BatchJson (response : batch_response)
  | JpegFile (data : list Byte.byte) (mimetype download_name : string).

(** A response: its body and its HTTP status. *)
Definition response : Type := body * Z.

(** ** The converter and the handlers *)

Section Service.

Context (P : Platform).

(** [Image.open(path)] together with the decoding that Pillow defers to the
    first use of the pixels. *)
Definition Image_open (path : string) : M Image :=
  fun w =>
    match files w !! path with
    | None => (inl FileNotFoundError, w)
    | Some data =>
        match image_open P data with
        | Some img => (inr img, w)
        | None => (inl UnidentifiedImageError, w)
        end
    end.

(** [img.thumbnail(size, LANCZOS)]; the image is resampled only when the
    size changes, by [Image.resize], which refuses a size with a side below
    1 ("height and width must be > 0"; for some modes the side 0 is met
    earlier, as a division by zero). *)
Definition Image_thumbnail (img : Image) (size : Z * Z) : M Image :=
  match PIL.thumbnail_size (width img) (height img) size with
  | inl e => raise e
  | inr None => ret img
  | inr (Some (x, y)) =>
      if (x =? width img) && (y =? height img) then ret img
      else if (x <? 1) || (y <? 1) then raise ValueError
      else ret (mkImage x y (resample P img (x, y)))
  end.

(** [img.save(path, 'JPEG', quality=q, optimize=o)]. *)
Definition Image_save (img : Image) (path : string) (quality : Z) (optimize : bool) : M unit :=
  fun w =>
    match write_fault P w path with
    | Fault residue => (inl OSError, leave path residue w)
    | NoFault =>
        match jpeg_encode P img quality optimize with
        | Encoded data => (inr tt, write_file path data w)
        | EncodeError residue => (inl OSError, leave path residue w)
        end
    end.

(** [file.save(dst)]: the bytes from the stream's read position on. *)
Definition FileStorage_save (file : FileStorage) (dst : string) : M unit :=
  fun w =>
    match write_fault P w dst with
    | Fault residue => (inl OSError, leave dst residue w)
    | NoFault => (inr tt, write_file dst (fst (read file)) w)
    end.

(** [send_file(path, mimetype=..., as_attachment=True, download_name=...)]. *)
Definition send_file (path mimetype download_name : string) : M response :=
  fun w =>
    match files w !! path with
    | None => (inl FileNotFoundError, w)
    | Some data =>
        if send_fault P w path then (inl OSError, w)
        else (inr (JpegFile data mimetype download_name, 200), w)
    end.

(** Lines 44-46: the image the converter encodes. *)
Definition bounded (img : Image) (max_size : Z * Z) : M Image :=
  if Z.max (width img) (height img) >? Z.max (fst max_size) (snd max_size)
  then Image_thumbnail img max_size
  else ret img.

(** Lines 40-53.  The calls to the logger change nothing here and are left
    out, in this function and in the handlers. *)
Definition convert_tif_to_jpg (input_path output_path : string) (max_size : Z * Z) : M bool :=
  try_except
    (img <~ Image_open input_path;
     img <~ bounded img max_size;
     Image_save img output_path 80 true;;
     ret true)
    (fun _ => ret false).

(** [if os.path.exists(path): os.remove(path)]. *)
Definition remove_if_exists (path : string) : M unit :=
  present <~ os_path_exists path;
  if present then os_remove path else ret tt.

(** The four names of lines 93-96 (and 180-183): the sanitised name, the
    input path, the output name and the output path.  Nothing on these
    lines raises, so they are computed ahead of the [try]. *)
Definition staged_name (file : FileStorage) : string :=
  secure_filename P (filename file).

Definition input_path_of (file : FileStorage) : string :=
  os_path_join UPLOAD_FOLDER (staged_name file).

Definition output_filename_of (file : FileStorage) : string :=
  default "" (head (PyStr.rsplit1 "." (staged_name file))) +:+ ".jpg".

Definition output_path_of (file : FileStorage) : string :=
  os_path_join OUTPUT_FOLDER (output_filename_of file).

Definition size_message (output_size : Z) : string :=
  "Output file size (" +:+ PyFloat.format_1f (PyFloat.megabytes output_size) +:+ "MB) exceeds limit".

(** Lines 92-131: the [try] of the single-file handler for a validated
    upload. *)
Definition convert_image_try (file : FileStorage) : M response :=
  let input_path := input_path_of file in
  let output_filename := output_filename_of file in
  let output_path := output_path_of file in
  try_except
    (FileStorage_save file input_path;;
     converted <~ convert_tif_to_jpg input_path output_path (2800, 2800);
     if converted then
       os_remove input_path;;
       output_size <~ os_path_getsize output_path;
       if output_size >? MAX_OUTPUT_FILE_SIZE then
         os_remove output_path;;
         ret (ErrorJson (size_message output_size +:+ " of "
                         +:+ PyFloat.str_integral (MAX_OUTPUT_FILE_SIZE / (1024 * 1024))
                         +:+ "MB"), 400)
       else send_file output_path "image/jpeg" output_filename
     else
       remove_if_exists input_path;;
       ret (ErrorJson "Conversion failed", 500))
    (fun _ =>
       remove_if_exists input_path;;
       ret (ErrorJson "Internal server error", 500)).

(** Lines 67-131: [POST /convert]. *)
Definition convert_image (request_files : MultiDict) : M response :=
  if negb (md_contains "file" request_files) then
    ret (ErrorJson "No file provided", 400)
  else
    file <~ md_get "file" request_files;
    if String.eqb (filename file) "" then
      ret (ErrorJson "No file selected", 400)
    else if negb (allowed_file (filename file)) then
      ret (ErrorJson "Invalid file type. Only TIF/TIFF files are allowed", 400)
    else
      let '(within, file) := check_file_size file in
      if negb within then
        ret (ErrorJson ("File size exceeds maximum limit of "
                        +:+ PyFloat.str_integral (MAX_INPUT_FILE_SIZE / (1024 * 1024))
                        +:+ "MB"), 400)
      else convert_image_try file.

(** The batch handler also mutates its dict [response], and an append made
    before an exception stays made: its state is the world and the dict. *)
Definition B (A : Type) : Type := St (world * batch_response) A.

Definition in_world {A} (m : M A) : B A :=
  fun s =>
    match m (fst s) with
    | (r, w') => (r, (w', snd s))
    end.

(** [response['failed_conversions'].append({'filename': ..., 'reason': ...})]. *)
Definition append_failed (name reason : string) : B unit :=
  fun s =>
    (inr tt,
     (fst s, mkBatch (successful_conversions (snd s))
                     (failed_conversions (snd s) ++ [mkFailure name reason]))).

(** [response['successful_conversions'].append({...})]. *)
Definition append_successful (name output_path : string) (output_size_mb : Q) : B unit :=
  fun s =>
    (inr tt,
     (fst s, mkBatch (successful_conversions (snd s)
                        ++ [mkSuccess name output_path output_size_mb])
                     (failed_conversions (snd s)))).

(** Lines 157-222: the body of the batch loop for one file; [continue]
    ends the body. *)
Definition batch_file (file : FileStorage) : B unit :=
  if String.eqb (filename file) "" then
    append_failed "Unnamed" "File has no name"
  else if negb (allowed_file (filename file)) then
    append_failed (filename file) "Invalid file type"
  else
    let '(within, checked) := check_file_size file in
    if negb within then
      append_failed (filename file)
        ("File size exceeds "
         +:+ PyFloat.str_integral (MAX_INPUT_FILE_SIZE / (1024 * 1024))
         +:+ "MB limit")
    else
      let input_path := input_path_of checked in
      let output_path := output_path_of checked in
      try_except
        (in_world (FileStorage_save checked input_path);;
         converted <~ in_world (convert_tif_to_jpg input_path output_path (2800, 2800));
         (if converted then
            output_size <~ in_world (os_path_getsize output_path);
            if output_size <=? MAX_OUTPUT_FILE_SIZE then
              append_successful (filename file) output_path
                (PyFloat.round2 (PyFloat.megabytes output_size))
            else
              in_world (os_remove output_path);;
              append_failed (filename file) (size_message output_size)
          else append_failed (filename file) "Conversion failed");;
         in_world (remove_if_exists input_path))
        (fun _ =>
           append_failed (filename file) "Processing error";;
           in_world (remove_if_exists input_path)).

(** Lines 133-225: [POST /batch-convert]. *)
Definition batch_convert_images (request_files : MultiDict) : M response :=
  if negb (md_contains "files[]" request_files) then
    ret (ErrorJson "No files provided", 400)
  else
    let files := md_getlist "files[]" request_files in
    if bool_decide (files = []) || (Z.of_nat (length files) =? 0) then
      ret (ErrorJson "No files selected", 400)
    else if Z.of_nat (length files) >? 150 then
      ret (ErrorJson "Maximum 150 files allowed per batch", 400)
    else
      fun w =>
        match for_each batch_file files (w, mkBatch [] []) with
        | (inr _, (w', response)) =>
            (inr (BatchJson response,
                  if bool_decide (successful_conversions response = []) then 400 else 200),
             w')
        | (inl e, (w', _)) => (inl e, w')
        end.

End Service.

(** ** Runs of the handlers

    The vocabulary in which the theorems below describe a run: the worlds a
    run passes through, the ways a run of each pipeline can end, and what a
    run leaves in the trace. *)

(** The upload as the handlers use it after the size check. *)
Definition rewound (file : FileStorage) : FileStorage :=
  mkFile (filename file) (stream file) 0.

(** The world after a delete that found its file. *)
Definition removed (path : string) (w : world) : world :=
  mkWorld (delete path (files w)) (trace w ++ [EvRemove path]).

(** The world after [remove_if_exists]. *)
Definition cleaned (path : string) (w : world) : world :=
  if bool_decide (is_Some (files w !! path)) then removed path w else w.

(** The dict after one more failure entry, and after one more success
    entry. *)
Definition with_failed (r : batch_response) (name reason : string) : batch_response :=
  mkBatch (successful_conversions r) (failed_conversions r ++ [mkFailure name reason]).

Definition with_successful (r : batch_response) (name path : string) (mb : Q) : batch_response :=
  mkBatch (successful_conversions r ++ [mkSuccess name path mb]) (failed_conversions r).

(** One outcome per file: a success entry or a failure entry. *)
Definition outcome : Type := success_entry + failure_entry.

Definition outcome_name (o : outcome) : string :=
  match o with
  | inl s => s_filename s
  | inr f => f_filename f
  end.

(** The name under which the batch handler reports an upload. *)
Definition reported_name (file : FileStorage) : string :=
  if String.eqb (filename file) "" then "Unnamed" else filename file.

(** The dict after an outcome is appended to the sequence it belongs to. *)
Definition record (r : batch_response) (o : outcome) : batch_response :=
  match o with
  | inl s => mkBatch (successful_conversions r ++ [s]) (failed_conversions r)
  | inr f => mkBatch (successful_conversions r) (failed_conversions r ++ [f])
  end.

Definition successes_of (os : list outcome) : list success_entry :=
  omap (fun o => match o with inl s => Some s | inr _ => None end) os.

Definition failures_of (os : list outcome) : list failure_entry :=
  omap (fun o => match o with inl _ => None | inr f => Some f end) os.

(** The paths deleted in a stretch of the trace, and the paths at which a
    delete found nothing. *)
Definition removals (events : list fs_event) : list string :=
  omap (fun e => match e with EvRemove p => Some p | _ => None end) events.

Definition failed_removals (events : list fs_event) : list string :=
  omap (fun e => match e with EvRemoveMissing p => Some p | _ => None end) events.

(** What a run did to the file system between [w] and [w']: the staged
    input is gone, no delete raised and no path was deleted twice. *)
Definition cleaned_up (input_path : string) (w w' : world) : Prop :=
  files w' !! input_path = None /\
  exists events,
    trace w' = (trace w ++ events)%list /\
    failed_removals events = [] /\
    NoDup (removals events).

Section Runs.

Context (P : Platform).

(** The five ways the [try] of [convert_image] ends for an upload [file] in
    a world [w]: the response and the world it leaves. *)
Inductive try_run (file : FileStorage) (w : world) : response -> world -> Prop :=
  | run_save_failed residue :
      write_fault P w (input_path_of P file) = Fault residue ->
      try_run file w (ErrorJson "Internal server error", 500)
        (cleaned (input_path_of P file) (leave (input_path_of P file) residue w))
  | run_conversion_failed residue :
      write_fault P w (input_path_of P file) = NoFault ->
      convert_tif_to_jpg P (input_path_of P file) (output_path_of P file) (2800, 2800)
        (write_file (input_path_of P file) (fst (read file)) w)
      = (inr false,
         leave (output_path_of P file) residue
           (write_file (input_path_of P file) (fst (read file)) w)) ->
      try_run file w (ErrorJson "Conversion failed", 500)
        (removed (input_path_of P file)
           (leave (output_path_of P file) residue
              (write_file (input_path_of P file) (fst (read file)) w)))
  | run_output_too_large jpeg :
      write_fault P w (input_path_of P file) = NoFault ->
      convert_tif_to_jpg P (input_path_of P file) (output_path_of P file) (2800, 2800)
        (write_file (input_path_of P file) (fst (read file)) w)
      = (inr true,
         write_file (output_path_of P file) jpeg
           (write_file (input_path_of P file) (fst (read file)) w)) ->
      MAX_OUTPUT_FILE_SIZE < Z.of_nat (length jpeg) ->
      try_run file w
        (ErrorJson (size_message (Z.of_nat (length jpeg)) +:+ " of 10.0MB"), 400)
        (removed (output_path_of P file)
           (removed (input_path_of P file)
              (write_file (output_path_of P file) jpeg
                 (write_file (input_path_of P file) (fst (read file)) w))))
  | run_send_failed jpeg :
      write_fault P w (input_path_of P file) = NoFault ->
      convert_tif_to_jpg P (input_path_of P file) (output_path_of P file) (2800, 2800)
        (write_file (input_path_of P file) (fst (read file)) w)
      = (inr true,
         write_file (output_path_of P file) jpeg
           (write_file (input_path_of P file) (fst (read file)) w)) ->
      Z.of_nat (length jpeg) <= MAX_OUTPUT_FILE_SIZE ->
      send_fault P
        (removed (input_path_of P file)
           (write_file (output_path_of P file) jpeg
              (write_file (input_path_of P file) (fst (read file)) w)))
        (output_path_of P file) = true ->
      try_run file w (ErrorJson "Internal server error", 500)
        (removed (input_path_of P file)
           (write_file (output_path_of P file) jpeg
              (write_file (input_path_of P file) (fst (read file)) w)))
  | run_sent jpeg :
      write_fault P w (input_path_of P file) = NoFault ->
      convert_tif_to_jpg P (input_path_of P file) (output_path_of P file) (2800, 2800)
        (write_file (input_path_of P file) (fst (read file)) w)
      = (inr true,
         write_file (output_path_of P file) jpeg
           (write_file (input_path_of P file) (fst (read file)) w)) ->
      Z.of_nat (length jpeg) <= MAX_OUTPUT_FILE_SIZE ->
      send_fault P
        (removed (input_path_of P file)
           (write_file (output_path_of P file) jpeg
              (write_file (input_path_of P file) (fst (read file)) w)))
        (output_path_of P file) = false ->
      try_run file w (JpegFile jpeg "image/jpeg" (output_filename_of P file), 200)
        (removed (input_path_of P file)
           (write_file (output_path_of P file) jpeg
              (write_file (input_path_of P file) (fst (read file)) w))).

(** The seven ways the loop body ends for an upload [file], in a world [w]
    and with the dict [r]: the world and the dict it leaves. *)
Inductive batch_run (file : FileStorage) (w : world) (r : batch_response) :
    world -> batch_response -> Prop :=
  | batch_unnamed :
      filename file = "" ->
      batch_run file w r w (with_failed r "Unnamed" "File has no name")
  | batch_invalid_type :
      filename file <> "" -> allowed_file (filename file) = false ->
      batch_run file w r w (with_failed r (filename file) "Invalid file type")
  | batch_input_too_large :
      filename file <> "" -> allowed_file (filename file) = true ->
      MAX_INPUT_FILE_SIZE < stream_length file ->
      batch_run file w r w
        (with_failed r (filename file) "File size exceeds 1024.0MB limit")
  | batch_save_failed residue :
      filename file <> "" -> allowed_file (filename file) = true ->
      stream_length file <= MAX_INPUT_FILE_SIZE ->
      write_fault P w (input_path_of P file) = Fault residue ->
      batch_run file w r
        (cleaned (input_path_of P file) (leave (input_path_of P file) residue w))
        (with_failed r (filename file) "Processing error")
  | batch_conversion_failed residue :
      filename file <> "" -> allowed_file (filename file) = true ->
      stream_length file <= MAX_INPUT_FILE_SIZE ->
      write_fault P w (input_path_of P file) = NoFault ->
      convert_tif_to_jpg P (input_path_of P file) (output_path_of P file) (2800, 2800)
        (write_file (input_path_of P file) (stream file) w)
      = (inr false,
         leave (output_path_of P file) residue
           (write_file (input_path_of P file) (stream file) w)) ->
      batch_run file w r
        (removed (input_path_of P file)
           (leave (output_path_of P file) residue
              (write_file (input_path_of P file) (stream file) w)))
        (with_failed r (filename file) "Conversion failed")
  | batch_output_too_large jpeg :
      filename file <> "" -> allowed_file (filename file) = true ->
      stream_length file <= MAX_INPUT_FILE_SIZE ->
      write_fault P w (input_path_of P file) = NoFault ->
      convert_tif_to_jpg P (input_path_of P file) (output_path_of P file) (2800, 2800)
        (write_file (input_path_of P file) (stream file) w)
      = (inr true,
         write_file (output_path_of P file) jpeg
           (write_file (input_path_of P file) (stream file) w)) ->
      MAX_OUTPUT_FILE_SIZE < Z.of_nat (length jpeg) ->
      batch_run file w r
        (removed (input_path_of P file)
           (removed (output_path_of P file)
              (write_file (output_path_of P file) jpeg
                 (write_file (input_path_of P file) (stream file) w))))
        (with_failed r (filename file) (size_message (Z.of_nat (length jpeg))))
  | batch_converted jpeg :
      filename file <> "" -> allowed_file (filename file) = true ->
      stream_length file <= MAX_INPUT_FILE_SIZE ->
      write_fault P w (input_path_of P file) = NoFault ->
      convert_tif_to_jpg P (input_path_of P file) (output_path_of P file) (2800, 2800)
        (write_file (input_path_of P file) (stream file) w)
      = (inr true,
         write_file (output_path_of P file) jpeg
           (write_file (input_path_of P file) (stream file) w)) ->
      Z.of_nat (length jpeg) <= MAX_OUTPUT_FILE_SIZE ->
      batch_run file w r
        (removed (input_path_of P file)
           (write_file (output_path_of P file) jpeg
              (write_file (input_path_of P file) (stream file) w)))
        (with_successful r (filename file) (output_path_of P file)
           (PyFloat.round2 (PyFloat.megabytes (Z.of_nat (length jpeg))))).

(** The loop over a list of uploads: one run of the body after the other. *)
Inductive batch_runs : list FileStorage -> world -> batch_response ->
    world -> batch_response -> Prop :=
  | runs_nil w r : batch_runs [] w r w r
  | runs_cons file rest w r w1 r1 w2 r2 :
      batch_run file w r w1 r1 -> batch_runs rest w1 r1 w2 r2 ->
      batch_runs (file :: rest) w r w2 r2.

End Runs.

(** ** A concrete platform for running the handlers *)

Module Demo.

(** A sanitiser that keeps a name but turns each slash into an underscore. *)
Fixpoint no_slashes (s : string) : string :=
  match s with
  | EmptyString => EmptyString
  | String c r => String (if ascii_dec c "/" then "_"%char else c) (no_slashes r)
  end.

Lemma no_slashes_relative (s : string) : String.prefix "/" (no_slashes s) = false.
Proof.
  destruct s as [|c r]; [reflexivity|]. cbn -[ascii_dec].
  destruct (ascii_dec c "/") as [Hc|Hc].
  - reflexivity.
  - destruct (ascii_dec "/" c) as [Hd|Hd]; [congruence|reflexivity].
Qed.

(** A toy image format: the first two bytes are the width and the height in
    units of 100 pixels, the rest is the raster. *)
Definition decode (data : list Byte.byte) : option Image :=
  match data with
  | w :: h :: rest =>
      Some (mkImage (100 * Z.of_N (Byte.to_N w)) (100 * Z.of_N (Byte.to_N h)) rest)
  | _ => None
  end.

(** A platform without faults whose encoder answers [encoded]. *)
Definition platform (encoded : Image -> encode_result) : Platform :=
  mkPlatform no_slashes no_slashes_relative decode
    (fun img _ => raster img) (fun img _ _ => encoded img)
    (fun _ _ => NoFault) (fun _ _ => false).

(** An encoder that writes the raster back. *)
Definition plain : Platform := platform (fun img => Encoded (raster img)).

Definition empty_world : world := mkWorld ∅ [].

(** An upload of a 100 by 100 image and an upload that is no image. *)
Definition small_tiff : FileStorage := mkFile "a.tiff" [Byte.x01; Byte.x01; Byte.x2a] 0.
Definition broken_tiff : FileStorage := mkFile "b.tif" [Byte.x01] 0.
Definition text_file : FileStorage := mkFile "notes.txt" [Byte.x01; Byte.x01] 0.
Definition unnamed : FileStorage := mkFile "" [Byte.x01; Byte.x01] 0.

(** The bytes of a 5000 by 2500 image and the image they decode to. *)
Definition wide_bytes : list Byte.byte := [Byte.x32; Byte.x19; Byte.x2a].
Definition wide_image : Image := mkImage 5000 2500 [Byte.x2a].

(** One byte more than 10 MiB. *)
Definition huge : list Byte.byte := repeat Byte.x00 (N.to_nat 10485761).

End Demo.

(** * Verification *)

(** ** Facts about the string functions *)

Lemma contains_app_dot (c : ascii) (a b : string) :
  PyStr.contains c (a +:+ String c b) = true.
Proof.
  induction a as [|d a IH]; simpl.
  - destruct (ascii_dec c c); congruence.
  - destruct (ascii_dec c d); auto.
Qed.

Lemma rsplit_last_none (c : ascii) (s : string) :
  PyStr.rsplit_last c s = None <-> PyStr.contains c s = false.
Proof.
  induction s as [|d r IH]; simpl; [tauto|].
  destruct (PyStr.rsplit_last c r) as [[pre suf]|] eqn:E.
  - split; [discriminate|]. destruct (ascii_dec c d); [discriminate|].
    intros H. apply IH in H. discriminate.
  - destruct (ascii_dec c d); split; try discriminate; tauto.
Qed.

(** [rsplit_last] cuts at the last occurrence. *)
Lemma rsplit_last_some (c : ascii) (s pre suf : string) :
  PyStr.rsplit_last c s = Some (pre, suf) <->
  s = pre +:+ String c suf /\ PyStr.contains c suf = false.
Proof.
  revert pre. induction s as [|d r IH]; intros pre; simpl.
  - split; [discriminate|]. intros [H _]. destruct pre; discriminate.
  - destruct (PyStr.rsplit_last c r) as [[p q]|] eqn:E.
    + split.
      * intros [= <- <-]. destruct (proj1 (IH p) eq_refl) as [-> Hq].
        split; [reflexivity|assumption].
      * intros [Hs Hsuf]. destruct pre as [|e pre]; simpl in Hs.
        -- injection Hs as Hd Hr. subst.
           apply rsplit_last_none in Hsuf. congruence.
        -- injection Hs as Hd Hr. subst e.
           assert (Some (p, q) = Some (pre, suf)) as E'
             by (apply IH; split; assumption).
           congruence.
    + apply rsplit_last_none in E. destruct (ascii_dec c d) as [Hcd|Hne].
      * subst d. split.
        -- intros [= <- <-]. split; [reflexivity|assumption].
        -- intros [Hs Hsuf]. destruct pre as [|e pre]; simpl in Hs.
           ++ injection Hs as Hr. now subst.
           ++ injection Hs as Hd Hr. subst.
              rewrite contains_app_dot in E. discriminate.
      * split; [discriminate|]. intros [Hs Hsuf].
        destruct pre as [|e pre]; simpl in Hs.
        -- injection Hs as Hd Hr. congruence.
        -- injection Hs as Hd Hr. subst.
           rewrite contains_app_dot in E. discriminate.
Qed.

(** Behind the guard the subscript [[1]] is in range. *)
Lemma rsplit1_second (c : ascii) (s : string) :
  PyStr.contains c s = true -> is_Some (PyStr.rsplit1 c s !! 1%nat).
Proof.
  intros H. unfold PyStr.rsplit1.
  destruct (PyStr.rsplit_last c s) as [[pre suf]|] eqn:E.
  - simpl. eauto.
  - apply rsplit_last_none in E. congruence.
Qed.

Lemma elem_of_ALLOWED_EXTENSIONS (e : string) :
  e ∈ ALLOWED_EXTENSIONS <-> e = "tif" \/ e = "tiff".
Proof. unfold ALLOWED_EXTENSIONS. set_solver. Qed.

(** ** C8 *)

(** C8: [allowed_file f] is true exactly when [f] contains a dot and the
    text after its last dot, lowercased, is [tif] or [tiff]; a name
    without a dot is therefore rejected. *)
Theorem allowed_file_spec (f : string) :
  (allowed_file f = true <->
   PyStr.contains "." f = true /\
   exists stem ext,
     f = stem +:+ "." +:+ ext /\ PyStr.contains "." ext = false /\
     (PyStr.lower ext = "tif" \/ PyStr.lower ext = "tiff")) /\
  (PyStr.contains "." f = false -> allowed_file f = false).
Proof.
  split; [|intros H; unfold allowed_file; now rewrite H].
  unfold allowed_file, PyStr.rsplit1. split.
  - intros H. apply andb_prop in H as [Hdot H]. split; [assumption|].
    destruct (PyStr.rsplit_last "." f) as [[pre suf]|] eqn:E; simpl in H;
      [|discriminate].
    apply bool_decide_eq_true, elem_of_ALLOWED_EXTENSIONS in H.
    apply rsplit_last_some in E as [-> Hsuf]. eauto.
  - intros [Hdot (stem & ext & -> & Hext & Hlow)]. rewrite Hdot. simpl.
    assert (PyStr.rsplit_last "." (stem +:+ "." +:+ ext) = Some (stem, ext)) as ->
      by (apply rsplit_last_some; auto).
    simpl. apply bool_decide_eq_true, elem_of_ALLOWED_EXTENSIONS. assumption.
Qed.

(** ** C9 *)

(** C9: [check_file_size] answers true exactly when the stream holds at
    most 1 GiB, and it leaves the stream at position 0 with the same bytes,
    so that a full read afterwards returns the whole content and measuring
    a second time changes nothing. *)
Theorem check_file_size_spec (file : FileStorage) :
  (fst (check_file_size file) = true <-> stream_length file <= 1024 * 1024 * 1024) /\
  position (snd (check_file_size file)) = 0 /\
  stream (snd (check_file_size file)) = stream file /\
  fst (read (snd (check_file_size file))) = stream file /\
  check_file_size (snd (check_file_size file)) = check_file_size file.
Proof.
  unfold check_file_size, read, seek, tell, stream_length. cbn.
  assert (0 <= Z.of_nat (length (stream file))) by lia.
  repeat split.
  - intros E. apply Z.leb_le in E. unfold MAX_INPUT_FILE_SIZE in E. lia.
  - intros E. apply Z.leb_le. unfold MAX_INPUT_FILE_SIZE. lia.
Qed.

(** Turn a comparison of quotients of integers into one of integers. *)
Ltac q_to_z :=
  unfold Qeq, Qle, Qmult, Qdiv, Qinv, inject_Z; cbn;
  rewrite ?Pos.mul_1_l, ?Pos.mul_1_r, ?Z.mul_1_r, ?Z.mul_1_l; cbn;
  rewrite ?Pos.mul_1_l, ?Pos.mul_1_r, ?Z.mul_1_r, ?Z.mul_1_l.

(** ** Doubles *)

(** *** Rationals and integers *)

Lemma Qabs_pos_eq (q : Q) : (0 < q)%Q -> Qabs q = q.
Proof.
  destruct q as [n d]. unfold Qlt. cbn. rewrite Z.mul_1_r. intros H.
  now rewrite Z.abs_eq by lia.
Qed.

Lemma Qabs_nonzero_pos (q : Q) : ~ (q == 0)%Q -> (0 < Qabs q)%Q.
Proof.
  destruct q as [n d]. unfold Qeq, Qlt. cbn. rewrite !Z.mul_1_r. lia.
Qed.

Lemma Qabs_zero (q : Q) : (q == 0)%Q -> (Qabs q == 0)%Q.
Proof. intros E. rewrite E. reflexivity. Qed.

Lemma inject_Z_sub (a b : Z) : inject_Z (a - b) = (inject_Z a - inject_Z b)%Q.
Proof. unfold Z.sub, Qminus. now rewrite inject_Z_plus, inject_Z_opp. Qed.

Lemma inject_Z_pos (n : Z) : 0 < n -> (0 < inject_Z n)%Q.
Proof. intros H. change 0%Q with (inject_Z 0). now rewrite <- Zlt_Qlt. Qed.

(** Integers that differ, differ by at least 1. *)
Lemma inject_Z_below (n k : Z) : n < k -> (inject_Z n + 1 <= inject_Z k)%Q.
Proof.
  intros H. change 1%Q with (inject_Z 1). rewrite <- inject_Z_plus, <- Zle_Qle. lia.
Qed.

(** Multiplying both sides by a positive number. *)
Lemma scale_le (a b c : Q) : (0 < c -> a <= b -> a * c <= b * c)%Q.
Proof. intros Hc H. apply Qmult_le_compat_r; lra. Qed.

Lemma scale_lt (a b c : Q) : (0 < c -> a < b -> a * c < b * c)%Q.
Proof. intros Hc H. apply Qmult_lt_compat_r; lra. Qed.

(** *** Powers of two *)

Lemma pow2_pos e : (0 < Double.pow2 e)%Q.
Proof. apply Qpower_0_lt. reflexivity. Qed.

Lemma pow2_add a b : (Double.pow2 (a + b) == Double.pow2 a * Double.pow2 b)%Q.
Proof. apply Qpower_plus. discriminate. Qed.

Lemma pow2_inv e : (Double.pow2 e * Double.pow2 (- e) == 1)%Q.
Proof. rewrite <- pow2_add. now rewrite Z.add_opp_diag_r. Qed.

Lemma pow2_mono a b : a <= b -> (Double.pow2 a <= Double.pow2 b)%Q.
Proof. intros H. apply Qpower_le_compat_l; [exact H|discriminate]. Qed.

Lemma pow2_Z n : 0 <= n -> (Double.pow2 n == inject_Z (2 ^ n))%Q.
Proof. intros H. unfold Double.pow2. now rewrite (Zpower_Qpower 2 n H). Qed.

(** *** Rounding to an integer *)

(** Rounding to the nearest integer stays between the integers around. *)
Lemma round_half_even_bounds (q : Q) (lo hi : Z) :
  (inject_Z lo <= q)%Q -> (q <= inject_Z hi)%Q ->
  lo <= PyFloat.round_half_even q <= hi.
Proof.
  destruct q as [n d]. unfold PyFloat.round_half_even, Qle, inject_Z, Qcompare.
  cbn [Qfloor Qnum Qden Qminus Qplus Qopp].
  rewrite ?Pos.mul_1_r, ?Z.mul_1_r, ?Z.mul_1_l. intros Hlo Hhi.
  pose proof (Z.div_mod n (Z.pos d) ltac:(lia)) as Hf.
  pose proof (Z.mod_pos_bound n (Z.pos d) ltac:(lia)) as Hfm.
  assert (lo <= n / Z.pos d) by (apply Z.div_le_lower_bound; nia).
  assert (n / Z.pos d <= hi) by (apply Z.div_le_upper_bound; nia).
  match goal with |- context [(?a ?= ?b)%Z] =>
    destruct (Z.compare_spec a b) as [E|E|E]
  end; [destruct (Z.even _)|..]; nia.
Qed.

(** Rounding to the nearest integer moves a number by at most one half. *)
Lemma round_half_even_near (q : Q) :
  (q - (1 # 2) <= inject_Z (PyFloat.round_half_even q))%Q /\
  (inject_Z (PyFloat.round_half_even q) <= q + (1 # 2))%Q.
Proof.
  destruct q as [n d]. unfold PyFloat.round_half_even, Qle, inject_Z, Qcompare.
  cbn [Qfloor Qnum Qden Qminus Qplus Qopp].
  rewrite ?Pos.mul_1_r, ?Z.mul_1_r, ?Z.mul_1_l.
  pose proof (Z.div_mod n (Z.pos d) ltac:(lia)) as Hf.
  pose proof (Z.mod_pos_bound n (Z.pos d) ltac:(lia)) as Hfm.
  match goal with |- context [(?a ?= ?b)%Z] =>
    destruct (Z.compare_spec a b) as [E|E|E]
  end; [destruct (Z.even _)|..]; cbn.
  all: rewrite ?Pos2Z.inj_mul; change (Z.neg d) with (- Z.pos d); split; nia.
Qed.

(** The nearest integer does not depend on how the number is written as a
    fraction. *)
Lemma round_half_even_comp (p q : Q) :
  (p == q)%Q -> PyFloat.round_half_even p = PyFloat.round_half_even q.
Proof.
  intros E. unfold PyFloat.round_half_even.
  rewrite (Qfloor_comp _ _ E).
  assert ((p - inject_Z (Qfloor q) ?= 1 # 2) = (q - inject_Z (Qfloor q) ?= 1 # 2))%Q as ->
    by (apply Qcompare_comp; [rewrite E; reflexivity|reflexivity]).
  reflexivity.
Qed.

(** *** The exponent *)

(** A positive rational against the powers of two around its numerator and
    denominator. *)
Lemma exponent_estimate (q : Q) :
  (0 < q)%Q ->
  (Double.pow2 51 < q * Double.pow2 (- (Z.log2 (Qnum q) - Z.log2 (Z.pos (Qden q)) - 52)))%Q.
Proof.
  destruct q as [n d]. unfold Qlt at 1. cbn [Qnum Qden]. rewrite Z.mul_1_r, Z.mul_0_l.
  intros Hn.
  pose proof (Z.log2_spec n Hn) as [Hn1 Hn2].
  pose proof (Z.log2_spec (Z.pos d) ltac:(lia)) as [Hd1 Hd2].
  pose proof (Z.log2_nonneg n) as Hln. pose proof (Z.log2_nonneg (Z.pos d)) as Hld.
  set (a := Z.log2 n) in *. set (b := Z.log2 (Z.pos d)) in *.
  assert (Double.pow2 (- (a - b - 52))
          == Double.pow2 b * Double.pow2 52 * Double.pow2 (- a))%Q as ->.
  { rewrite <- !pow2_add. apply Qpower_comp; [reflexivity|lia]. }
  assert ((n # d) == inject_Z n / inject_Z (Z.pos d))%Q as -> by apply Qmake_Qdiv.
  assert (Double.pow2 a <= inject_Z n)%Q as Ha1
    by (rewrite (pow2_Z a Hln), <- Zle_Qle; exact Hn1).
  assert (inject_Z (Z.pos d) < Double.pow2 b * 2)%Q as Hb2.
  { assert (Double.pow2 b * 2 == Double.pow2 (Z.succ b))%Q as ->
      by (unfold Z.succ; rewrite pow2_add; reflexivity).
    rewrite (pow2_Z (Z.succ b)) by lia. rewrite <- Zlt_Qlt. exact Hd2. }
  assert (0 < inject_Z (Z.pos d))%Q as Hdpos by reflexivity.
  pose proof (pow2_inv a) as Hinv.
  pose proof (pow2_pos a) as Pa. pose proof (pow2_pos b) as Pb.
  pose proof (pow2_pos (- a)) as Pna.
  change (Double.pow2 51) with (2251799813685248%Q).
  change (Double.pow2 52) with (4503599627370496%Q).
  clear Hn1 Hn2 Hd1 Hd2 Hln Hld Hn.
  generalize dependent (Double.pow2 (- a)). generalize dependent (Double.pow2 a).
  generalize dependent (Double.pow2 b).
  generalize dependent (inject_Z n). generalize dependent (inject_Z (Z.pos d)).
  clear. intros D HD N B HB PB A HA PA IA HI PIA.
  assert (1 <= N * IA)%Q as HR by (rewrite <- HI; apply Qmult_le_compat_r; lra).
  assert (1 # 2 < B / D)%Q as HS by (apply Qlt_shift_div_l; lra).
  assert (N / D * (B * 4503599627370496 * IA) == (N * IA) * (B / D) * 4503599627370496)%Q
    as -> by (field; lra).
  generalize dependent (N * IA)%Q. generalize dependent (B / D)%Q. clear.
  intros S HS R HR. nra.
Qed.

(** The other side of [exponent_estimate]. *)
Lemma exponent_estimate_upper (q : Q) :
  (0 < q)%Q ->
  (q * Double.pow2 (- (Z.log2 (Qnum q) - Z.log2 (Z.pos (Qden q)) - 52)) < Double.pow2 53)%Q.
Proof.
  destruct q as [n d]. unfold Qlt at 1. cbn [Qnum Qden]. rewrite Z.mul_1_r, Z.mul_0_l.
  intros Hn.
  pose proof (Z.log2_spec n Hn) as [Hn1 Hn2].
  pose proof (Z.log2_spec (Z.pos d) ltac:(lia)) as [Hd1 Hd2].
  pose proof (Z.log2_nonneg n) as Hln. pose proof (Z.log2_nonneg (Z.pos d)) as Hld.
  set (a := Z.log2 n) in *. set (b := Z.log2 (Z.pos d)) in *.
  assert (Double.pow2 (- (a - b - 52))
          == Double.pow2 b * Double.pow2 52 * Double.pow2 (- a))%Q as ->.
  { rewrite <- !pow2_add. apply Qpower_comp; [reflexivity|lia]. }
  assert ((n # d) == inject_Z n / inject_Z (Z.pos d))%Q as -> by apply Qmake_Qdiv.
  assert (inject_Z n < Double.pow2 a * 2)%Q as Ha2.
  { assert (Double.pow2 a * 2 == Double.pow2 (Z.succ a))%Q as ->
      by (unfold Z.succ; rewrite pow2_add; reflexivity).
    rewrite (pow2_Z (Z.succ a)) by lia. rewrite <- Zlt_Qlt. exact Hn2. }
  assert (Double.pow2 b <= inject_Z (Z.pos d))%Q as Hb1
    by (rewrite (pow2_Z b Hld), <- Zle_Qle; exact Hd1).
  assert (0 < inject_Z (Z.pos d))%Q as Hdpos by reflexivity.
  assert (0 < inject_Z n)%Q as Hnpos by (apply inject_Z_pos; exact Hn).
  pose proof (pow2_inv a) as Hinv.
  pose proof (pow2_pos a) as Pa. pose proof (pow2_pos b) as Pb.
  pose proof (pow2_pos (- a)) as Pna.
  change (Double.pow2 53) with (9007199254740992%Q).
  change (Double.pow2 52) with (4503599627370496%Q).
  clear Hn1 Hn2 Hd1 Hd2 Hln Hld Hn.
  generalize dependent (Double.pow2 (- a)). generalize dependent (Double.pow2 a).
  generalize dependent (Double.pow2 b).
  generalize dependent (inject_Z n). generalize dependent (inject_Z (Z.pos d)).
  clear. intros D HD N HN B HB PB A HA PA IA HI PIA.
  assert (N * IA < 2)%Q as HR.
  { assert (N * IA < A * 2 * IA)%Q as H1 by (apply Qmult_lt_compat_r; lra).
    assert (A * 2 * IA == 2 * (A * IA))%Q as H2 by ring.
    rewrite H2, HI in H1. exact H1. }
  assert (0 < N * IA)%Q as HR0 by (apply Qmult_lt_0_compat; lra).
  assert (B / D <= 1)%Q as HS by (apply Qle_shift_div_r; lra).
  assert (0 < B / D)%Q as HS0 by (apply Qlt_shift_div_l; lra).
  assert (N / D * (B * 4503599627370496 * IA) == (N * IA) * (B / D) * 4503599627370496)%Q
    as -> by (field; lra).
  generalize dependent (N * IA)%Q. generalize dependent (B / D)%Q. clear.
  intros S HS HS0 R HR HR0. nra.
Qed.

(** With the exponent chosen the significand is at least 2^52. *)
Lemma exponent_normalises (q : Q) :
  (0 < q)%Q -> (Double.pow2 52 <= q * Double.pow2 (- Double.exponent q))%Q.
Proof.
  intros Hq. unfold Double.exponent.
  pose proof (exponent_estimate q Hq) as He.
  set (e0 := Z.log2 (Qnum q) - Z.log2 (Z.pos (Qden q)) - 52) in *.
  destruct (Qle_bool (Double.pow2 52) (q * Double.pow2 (- e0))) eqn:E.
  - now apply Qle_bool_iff.
  - assert (Double.pow2 (- (e0 - 1)) == Double.pow2 (- e0) * 2)%Q as ->.
    { assert (- (e0 - 1) = - e0 + 1) as -> by lia. rewrite pow2_add. reflexivity. }
    change (Double.pow2 51) with (2251799813685248%Q) in He.
    change (Double.pow2 52) with (4503599627370496%Q).
    rewrite Qmult_assoc. clear E. revert He.
    generalize (q * Double.pow2 (- e0))%Q. intros s Hs. lra.
Qed.

(** The exponent puts the significand between 2^52 and 2^53. *)
Lemma exponent_spec (q : Q) :
  (0 < q)%Q ->
  (Double.pow2 52 <= q * Double.pow2 (- Double.exponent q))%Q /\
  (q * Double.pow2 (- Double.exponent q) < Double.pow2 53)%Q.
Proof.
  intros Hq. split; [now apply exponent_normalises|].
  unfold Double.exponent.
  pose proof (exponent_estimate_upper q Hq) as He.
  set (e0 := Z.log2 (Qnum q) - Z.log2 (Z.pos (Qden q)) - 52) in *.
  destruct (Qle_bool (Double.pow2 52) (q * Double.pow2 (- e0))) eqn:E.
  - exact He.
  - assert (Double.pow2 (- (e0 - 1)) == Double.pow2 (- e0) * 2)%Q as ->.
    { assert (- (e0 - 1) = - e0 + 1) as -> by lia. rewrite pow2_add. reflexivity. }
    assert (~ (Double.pow2 52 <= q * Double.pow2 (- e0))%Q) as Hlt
      by (rewrite <- Qle_bool_iff, E; discriminate).
    apply Qnot_le_lt in Hlt.
    change (Double.pow2 52) with (4503599627370496%Q) in Hlt.
    change (Double.pow2 53) with (9007199254740992%Q).
    rewrite Qmult_assoc. clear E He. revert Hlt.
    generalize (q * Double.pow2 (- e0))%Q. intros s Hs. lra.
Qed.

(** And it is the only such exponent. *)
Lemma exponent_unique (q : Q) (e : Z) :
  (0 < q)%Q ->
  (Double.pow2 52 <= q * Double.pow2 (- e))%Q -> (q * Double.pow2 (- e) < Double.pow2 53)%Q ->
  e = Double.exponent q.
Proof.
  intros Hq H1 H2. destruct (exponent_spec q Hq) as [S1 S2].
  set (e' := Double.exponent q) in *.
  assert (forall a b, a < b ->
            (Double.pow2 52 <= q * Double.pow2 (- b))%Q ->
            (q * Double.pow2 (- a) < Double.pow2 53)%Q -> False) as Hno.
  { intros a b Hab Hb Ha.
    assert (Double.pow2 (- a) == Double.pow2 (- b) * Double.pow2 (b - a))%Q as E
      by (rewrite <- pow2_add; apply Qpower_comp; [reflexivity|lia]).
    assert (Double.pow2 1 <= Double.pow2 (b - a))%Q as Hp by (apply pow2_mono; lia).
    change (Double.pow2 1) with 2%Q in Hp.
    rewrite E, Qmult_assoc in Ha.
    change (Double.pow2 52) with (4503599627370496%Q) in Hb.
    change (Double.pow2 53) with (9007199254740992%Q) in Ha.
    revert Hb Ha Hp. generalize (q * Double.pow2 (- b))%Q (Double.pow2 (b - a)).
    intros s p Hs Hsp Hp. nra. }
  destruct (Z.lt_trichotomy e e') as [Hlt|[Heq|Hgt]]; [exfalso|exact Heq|exfalso].
  - exact (Hno e e' Hlt S1 H2).
  - exact (Hno e' e Hgt H1 S2).
Qed.

(** Equal fractions have the same exponent. *)
Lemma exponent_comp (p q : Q) :
  (0 < p)%Q -> (p == q)%Q -> Double.exponent p = Double.exponent q.
Proof.
  intros Hp E. assert (0 < q)%Q as Hq by (rewrite <- E; exact Hp).
  destruct (exponent_spec p Hp) as [S1 S2].
  apply exponent_unique; [exact Hq|rewrite <- E; exact S1|rewrite <- E; exact S2].
Qed.

(** Below 2^53 the spacing of the doubles is at most 1. *)
Lemma exponent_nonpos (q : Q) :
  (0 < q)%Q -> (q < Double.pow2 53)%Q -> Double.exponent q <= 0.
Proof.
  intros Hq Hlt. pose proof (exponent_normalises q Hq) as Hn.
  set (e := Double.exponent q) in *.
  destruct (Z.le_gt_cases e 0) as [H|H]; [exact H|exfalso].
  assert (Double.pow2 (- e) <= Double.pow2 (- 1))%Q as Hp by (apply pow2_mono; lia).
  pose proof (pow2_pos (- e)) as Pe.
  change (Double.pow2 52) with (4503599627370496%Q) in Hn.
  change (Double.pow2 53) with (9007199254740992%Q) in Hlt.
  change (Double.pow2 (-1)) with (1 # 2)%Q in Hp.
  generalize dependent (Double.pow2 (- e)). intros p. intros. nra.
Qed.

(** *** Rounding to a double *)

(** The double nearest to a positive number. *)
Lemma round53_pos (q : Q) :
  (0 < q)%Q ->
  Double.round53 q
  = (inject_Z (PyFloat.round_half_even (q * Double.pow2 (- Double.exponent q)))
     * Double.pow2 (Double.exponent q))%Q.
Proof.
  intros Hq. unfold Double.round53.
  destruct (Qeq_bool q 0) eqn:E.
  - apply Qeq_bool_iff in E. rewrite E in Hq. discriminate.
  - now rewrite (Qabs_pos_eq q Hq).
Qed.

(** Rounding to a double changes a positive number by at most one part in
    2^53. *)
Lemma round53_error (q : Q) :
  (0 < q)%Q ->
  (q * (1 - (1 # 9007199254740992)) <= Double.round53 q)%Q /\
  (Double.round53 q <= q * (1 + (1 # 9007199254740992)))%Q.
Proof.
  intros Hq. rewrite (round53_pos q Hq).
  pose proof (exponent_normalises q Hq) as Hn.
  set (e := Double.exponent q) in *.
  pose proof (round_half_even_near (q * Double.pow2 (- e))) as [H1 H2].
  pose proof (pow2_inv e) as Hinv. pose proof (pow2_pos e) as Pe.
  pose proof (pow2_pos (- e)) as Pne.
  change (Double.pow2 52) with (4503599627370496%Q) in Hn.
  generalize dependent (inject_Z (PyFloat.round_half_even (q * Double.pow2 (- e)))).
  generalize dependent (Double.pow2 (- e)). generalize dependent (Double.pow2 e).
  intros p Pp ip Hn Hinv Pip m H1 H2.
  assert (q == (q * ip) * p)%Q as Hqs by (rewrite <- Qmult_assoc, (Qmult_comm ip), Hinv; ring).
  generalize dependent (q * ip)%Q. intros s Hn H1 H2 Hqs.
  split; rewrite Hqs; nra.
Qed.

Lemma round53_positive (q : Q) : (0 < q)%Q -> (0 < Double.round53 q)%Q.
Proof.
  intros Hq. destruct (round53_error q Hq) as [H _].
  apply Qlt_le_trans with (q * (1 - (1 # 9007199254740992)))%Q; [|exact H].
  apply Qmult_lt_0_compat; [exact Hq|reflexivity].
Qed.

(** A number that is not zero is not rounded to zero (the exponent has no
    lower limit here). *)
Lemma round53_negative (q : Q) : (q < 0)%Q -> (Double.round53 q < 0)%Q.
Proof.
  intros Hq. unfold Double.round53.
  assert (Qeq_bool q 0 = false) as ->.
  { apply not_true_iff_false. rewrite Qeq_bool_iff. intros E. rewrite E in Hq. discriminate. }
  assert (Qabs q == - q)%Q as Eabs by (apply Qabs_neg; lra).
  assert (0 < Qabs q)%Q as Hpos by (rewrite Eabs; lra).
  pose proof (exponent_normalises _ Hpos) as Hn.
  set (e := Double.exponent (Qabs q)) in *.
  destruct (round_half_even_near (q * Double.pow2 (- e))) as [_ H2].
  pose proof (pow2_pos e) as Pe.
  change (Double.pow2 52) with (4503599627370496%Q) in Hn.
  rewrite Eabs in Hn.
  assert (- q * Double.pow2 (- e) == - (q * Double.pow2 (- e)))%Q as E1 by ring.
  rewrite E1 in Hn.
  revert Hn H2. generalize (inject_Z (PyFloat.round_half_even (q * Double.pow2 (- e)))).
  generalize (q * Double.pow2 (- e))%Q.
  intros s r Hs Hr.
  assert (r < 0)%Q as Hneg by lra.
  assert (r * Double.pow2 e == - ((- r) * Double.pow2 e))%Q as -> by ring.
  assert (0 < (- r) * Double.pow2 e)%Q by (apply Qmult_lt_0_compat; lra).
  lra.
Qed.

Lemma round53_zero (q : Q) : (q == 0)%Q -> Double.round53 q = 0%Q.
Proof.
  intros E. unfold Double.round53. apply Qeq_bool_iff in E. now rewrite E.
Qed.

(** Rounding to a double does not depend on how the number is written as a
    fraction. *)
Lemma round53_comp (p q : Q) : (p == q)%Q -> (Double.round53 p == Double.round53 q)%Q.
Proof.
  intros E. unfold Double.round53.
  destruct (Qeq_bool p 0) eqn:Ep.
  - apply Qeq_bool_iff in Ep. rewrite E in Ep. apply Qeq_bool_iff in Ep. now rewrite Ep.
  - assert (Qeq_bool q 0 = false) as ->.
    { apply not_true_iff_false. rewrite Qeq_bool_iff. intros Hq.
      rewrite <- E in Hq. apply Qeq_bool_iff in Hq. congruence. }
    assert (~ (p == 0)%Q) as Hp by (rewrite <- Qeq_bool_iff, Ep; discriminate).
    assert (Double.exponent (Qabs p) = Double.exponent (Qabs q)) as <-.
    { apply exponent_comp; [now apply Qabs_nonzero_pos|now rewrite E]. }
    rewrite (round_half_even_comp (p * _) (q * Double.pow2 (- Double.exponent (Qabs p)))).
    + reflexivity.
    + apply Qmult_comp; [exact E|reflexivity].
Qed.

(** Rounding to a double never crosses an integer below 2^53: such an
    integer is itself a double. *)
Lemma round53_le_integer (q : Q) (k : Z) :
  (0 < q)%Q -> (q <= inject_Z k)%Q -> k < 2 ^ 53 ->
  (Double.round53 q <= inject_Z k)%Q.
Proof.
  intros Hq Hk Hlt. rewrite (round53_pos q Hq).
  assert (q < Double.pow2 53)%Q as Hq53.
  { apply Qle_lt_trans with (inject_Z k); [exact Hk|].
    change (Double.pow2 53) with (inject_Z (2 ^ 53)). now rewrite <- Zlt_Qlt. }
  pose proof (exponent_nonpos q Hq Hq53) as He.
  set (e := Double.exponent q) in *.
  pose proof (pow2_Z (- e) ltac:(lia)) as Hp.
  pose proof (pow2_inv e) as Hinv. pose proof (pow2_pos e) as Pe.
  pose proof (pow2_pos (- e)) as Pne.
  assert (q * Double.pow2 (- e) <= inject_Z (k * 2 ^ (- e)))%Q as Hhi
    by (rewrite inject_Z_mult, <- Hp; apply Qmult_le_compat_r; [exact Hk|lra]).
  destruct (round_half_even_bounds _ _ _ (Qfloor_le _) Hhi) as [_ Hm].
  rewrite Zle_Qle, inject_Z_mult, <- Hp in Hm.
  generalize dependent (inject_Z (PyFloat.round_half_even (q * Double.pow2 (- e)))).
  intros m Hm. clear Hhi Hp.
  assert (inject_Z k == inject_Z k * Double.pow2 (- e) * Double.pow2 e)%Q as ->
    by (rewrite <- Qmult_assoc, (Qmult_comm (Double.pow2 (- e))), Hinv; ring).
  apply Qmult_le_compat_r; [exact Hm|lra].
Qed.

(** The same from below. *)
Lemma round53_ge_integer (q : Q) (k : Z) :
  (0 < q)%Q -> (inject_Z k <= q)%Q -> (q < Double.pow2 53)%Q ->
  (inject_Z k <= Double.round53 q)%Q.
Proof.
  intros Hq Hk Hq53. rewrite (round53_pos q Hq).
  pose proof (exponent_nonpos q Hq Hq53) as He.
  set (e := Double.exponent q) in *.
  pose proof (pow2_Z (- e) ltac:(lia)) as Hp.
  pose proof (pow2_inv e) as Hinv. pose proof (pow2_pos e) as Pe.
  pose proof (pow2_pos (- e)) as Pne.
  assert (inject_Z (k * 2 ^ (- e)) <= q * Double.pow2 (- e))%Q as Hlo
    by (rewrite inject_Z_mult, <- Hp; apply Qmult_le_compat_r; [exact Hk|lra]).
  destruct (round_half_even_bounds _ _ _ Hlo (Qle_ceiling _)) as [Hm _].
  rewrite Zle_Qle, inject_Z_mult, <- Hp in Hm.
  generalize dependent (inject_Z (PyFloat.round_half_even (q * Double.pow2 (- e)))).
  intros m Hm. clear Hlo Hp.
  assert (inject_Z k == inject_Z k * Double.pow2 (- e) * Double.pow2 e)%Q as ->
    by (rewrite <- Qmult_assoc, (Qmult_comm (Double.pow2 (- e))), Hinv; ring).
  apply Qmult_le_compat_r; [exact Hm|lra].
Qed.

(** A positive integer below 2^53 is a double, however it is written as a
    fraction. *)
Lemma round53_integer (q : Q) (k : Z) :
  (q == inject_Z k)%Q -> 0 < k < 2 ^ 53 -> (Double.round53 q == inject_Z k)%Q.
Proof.
  intros Hq [H0 H53].
  assert (0 < q)%Q as Hpos
    by (rewrite Hq; change 0%Q with (inject_Z 0); now rewrite <- Zlt_Qlt).
  apply Qle_antisym.
  - apply round53_le_integer; [exact Hpos|rewrite Hq; apply Qle_refl|exact H53].
  - apply round53_ge_integer; [exact Hpos|rewrite Hq; apply Qle_refl|].
    rewrite Hq. change (Double.pow2 53) with (inject_Z (2 ^ 53)). now rewrite <- Zlt_Qlt.
Qed.

(** *** Quotients of integers *)

(** The double nearest to the quotient of two sizes, times the divisor. *)
Lemma aspect_bounds (w h : Z) :
  0 < w -> 0 < h ->
  (0 < Double.div (inject_Z w) (inject_Z h))%Q /\
  (inject_Z w * (1 - (1 # 9007199254740992))
   <= Double.div (inject_Z w) (inject_Z h) * inject_Z h)%Q /\
  (Double.div (inject_Z w) (inject_Z h) * inject_Z h
   <= inject_Z w * (1 + (1 # 9007199254740992)))%Q.
Proof.
  intros Hw Hh. unfold Double.div.
  pose proof (inject_Z_pos w Hw) as PW. pose proof (inject_Z_pos h Hh) as PH.
  assert (0 < inject_Z w / inject_Z h)%Q as Hq by (apply Qlt_shift_div_l; lra).
  destruct (round53_error _ Hq) as [E1 E2].
  split; [now apply round53_positive|].
  assert (inject_Z w / inject_Z h * inject_Z h == inject_Z w)%Q as Hmul by (field; lra).
  generalize dependent (Double.round53 (inject_Z w / inject_Z h)).
  generalize dependent (inject_Z w / inject_Z h)%Q.
  intros q Hq Hmul A E1 E2. split; rewrite <- Hmul; nra.
Qed.

(** Equal quotients are rounded to the same double. *)
Lemma div_eq (a b c d : Z) :
  0 < b -> 0 < d -> a * d = c * b ->
  (Double.div (inject_Z a) (inject_Z b) == Double.div (inject_Z c) (inject_Z d))%Q.
Proof.
  intros Hb Hd E. unfold Double.div. apply round53_comp.
  pose proof (inject_Z_pos b Hb) as Pb. pose proof (inject_Z_pos d Hd) as Pd.
  assert (inject_Z a * inject_Z d == inject_Z c * inject_Z b)%Q as E'
    by (rewrite <- !inject_Z_mult, E; reflexivity).
  apply (Qmult_inj_r _ _ (inject_Z b * inject_Z d)); [|].
  { intros Hz. assert (0 < inject_Z b * inject_Z d)%Q by (apply Qmult_lt_0_compat; lra). lra. }
  assert (inject_Z a / inject_Z b * (inject_Z b * inject_Z d) == inject_Z a * inject_Z d)%Q
    as -> by (field; lra).
  assert (inject_Z c / inject_Z d * (inject_Z b * inject_Z d) == inject_Z c * inject_Z b)%Q
    as -> by (field; lra).
  exact E'.
Qed.

(** Quotients of integers below 2^31 with the same divisor, or the same
    dividend, are rounded to different doubles, in the same order. *)
Lemma div_lt_dividend (a c b : Z) :
  0 < a -> a < c -> c < 2 ^ 31 -> 0 < b ->
  (Double.div (inject_Z a) (inject_Z b) < Double.div (inject_Z c) (inject_Z b))%Q.
Proof.
  intros Ha Hac Hc Hb. unfold Double.div.
  pose proof (inject_Z_pos a Ha) as Pa. pose proof (inject_Z_pos b Hb) as Pb.
  pose proof (inject_Z_pos c ltac:(lia)) as Pc.
  assert (0 < inject_Z a / inject_Z b)%Q as P1 by (apply Qlt_shift_div_l; lra).
  assert (0 < inject_Z c / inject_Z b)%Q as P2 by (apply Qlt_shift_div_l; lra).
  destruct (round53_error _ P1) as [_ U]. destruct (round53_error _ P2) as [L _].
  apply Qle_lt_trans with (1 := U). apply Qlt_le_trans with (2 := L).
  apply (Qmult_lt_r _ _ _ Pb).
  assert (inject_Z a / inject_Z b * (1 + (1 # 9007199254740992)) * inject_Z b
          == inject_Z a * (1 + (1 # 9007199254740992)))%Q as -> by (field; lra).
  assert (inject_Z c / inject_Z b * (1 - (1 # 9007199254740992)) * inject_Z b
          == inject_Z c * (1 - (1 # 9007199254740992)))%Q as -> by (field; lra).
  pose proof (inject_Z_below a c Hac) as Hstep.
  assert (inject_Z c <= 2147483648)%Q as Hb31
    by (change 2147483648%Q with (inject_Z (2 ^ 31)); rewrite <- Zle_Qle; lia).
  lra.
Qed.

Lemma div_lt_divisor (c b b' : Z) :
  0 < c -> 0 < b -> b < b' -> b' < 2 ^ 31 ->
  (Double.div (inject_Z c) (inject_Z b') < Double.div (inject_Z c) (inject_Z b))%Q.
Proof.
  intros Hc Hb Hbb Hb'. unfold Double.div.
  pose proof (inject_Z_pos c Hc) as Pc. pose proof (inject_Z_pos b Hb) as Pb.
  pose proof (inject_Z_pos b' ltac:(lia)) as Pb'.
  assert (0 < inject_Z c / inject_Z b')%Q as P1 by (apply Qlt_shift_div_l; lra).
  assert (0 < inject_Z c / inject_Z b)%Q as P2 by (apply Qlt_shift_div_l; lra).
  destruct (round53_error _ P1) as [_ U]. destruct (round53_error _ P2) as [L _].
  apply Qle_lt_trans with (1 := U). apply Qlt_le_trans with (2 := L).
  assert (0 < inject_Z b * inject_Z b' / inject_Z c)%Q as Pf.
  { apply Qlt_shift_div_l; [lra|]. rewrite Qmult_0_l. apply Qmult_lt_0_compat; lra. }
  apply (Qmult_lt_r _ _ _ Pf).
  assert (inject_Z c / inject_Z b' * (1 + (1 # 9007199254740992))
            * (inject_Z b * inject_Z b' / inject_Z c)
          == inject_Z b * (1 + (1 # 9007199254740992)))%Q as -> by (field; lra).
  assert (inject_Z c / inject_Z b * (1 - (1 # 9007199254740992))
            * (inject_Z b * inject_Z b' / inject_Z c)
          == inject_Z b' * (1 - (1 # 9007199254740992)))%Q as -> by (field; lra).
  pose proof (inject_Z_below b b' Hbb) as Hstep.
  assert (inject_Z b' <= 2147483648)%Q as Hb31
    by (change 2147483648%Q with (inject_Z (2 ^ 31)); rewrite <- Zle_Qle; lia).
  lra.
Qed.

(** ** The thumbnail size *)

(** [round_aspect] of a positive number is at least 1, less than one away
    from the number, and not above an integer that the number is not above. *)
Lemma round_aspect_facts (number : Q) (key : Z -> Q) :
  (0 < number)%Q ->
  1 <= PIL.round_aspect number key /\
  (number - 1 < inject_Z (PIL.round_aspect number key))%Q /\
  (inject_Z (PIL.round_aspect number key) < number + 1)%Q /\
  (forall k, 1 <= k -> (number <= inject_Z k)%Q -> PIL.round_aspect number key <= k).
Proof.
  intros Hpos. unfold PIL.round_aspect.
  pose proof (Qfloor_le number) as F1. pose proof (Qlt_floor number) as F2.
  pose proof (Qle_ceiling number) as C1. pose proof (Qceiling_lt number) as C2.
  rewrite inject_Z_plus in F2. rewrite inject_Z_sub in C2.
  change (inject_Z 1) with 1%Q in F2, C2.
  assert (0 <= Qfloor number) as F0.
  { change 0 with (Qfloor 0). apply Qfloor_resp_le. now apply Qlt_le_weak. }
  assert (0 < Qceiling number) as C0.
  { rewrite Zlt_Qlt. change (inject_Z 0) with 0%Q. lra. }
  assert (forall k, (number <= inject_Z k)%Q -> Qceiling number <= k) as Hk.
  { intros k Hle. rewrite <- (Qceiling_Z k). now apply Qceiling_resp_le. }
  assert (Qfloor number <= Qceiling number) as FC by (rewrite Zle_Qle; lra).
  set (c := if Qle_bool _ _ then Qfloor number else Qceiling number).
  assert (c = Qfloor number \/ c = Qceiling number) as Hc
    by (unfold c; destruct (Qle_bool _ _); auto).
  clearbody c.
  destruct (Z.max_spec c 1) as [[Hlt ->]|[Hge ->]].
  - change (inject_Z 1) with 1%Q. split; [lia|].
    assert (c = Qfloor number) as -> by (destruct Hc; lia).
    assert (Qfloor number = 0) as E by lia. rewrite E in *.
    change (inject_Z 0) with 0%Q in *.
    split; [lra|]. split; [lra|]. intros; lia.
  - split; [lia|]. destruct Hc as [->| ->].
    + split; [lra|]. split; [lra|]. intros k H1 H2. specialize (Hk k H2). lia.
    + split; [lra|]. split; [lra|]. intros k H1 H2. exact (Hk k H2).
Qed.

(** When [number] is less than one away from an integer [k] whose key is
    zero, and the key of the integer below is not, [round_aspect] is [k]. *)
Lemma round_aspect_exact (number : Q) (key : Z -> Q) (k : Z) :
  1 <= k -> (inject_Z k - 1 < number)%Q -> (number < inject_Z k + 1)%Q ->
  (key k == 0)%Q -> (2 <= k -> (0 < key (k - 1)%Z)%Q) -> (0 <= key (k + 1)%Z)%Q ->
  PIL.round_aspect number key = k.
Proof.
  intros Hk L U K0 Kl Ku. unfold PIL.round_aspect.
  pose proof (Qfloor_le number) as F1. pose proof (Qlt_floor number) as F2.
  pose proof (Qle_ceiling number) as C1. pose proof (Qceiling_lt number) as C2.
  rewrite inject_Z_plus in F2. rewrite inject_Z_sub in C2.
  change (inject_Z 1) with 1%Q in F2, C2.
  destruct (Q_dec number (inject_Z k)) as [[Hlt|Hgt]|Heq].
  - assert (Qfloor number = k - 1) as ->.
    { assert (Qfloor number < k) by (rewrite Zlt_Qlt; lra).
      assert (k - 2 < Qfloor number)
        by (rewrite Zlt_Qlt, inject_Z_sub; change (inject_Z 2) with 2%Q; lra).
      lia. }
    assert (Qceiling number = k) as ->.
    { assert (Qceiling number < k + 1)
        by (rewrite Zlt_Qlt, inject_Z_plus; change (inject_Z 1) with 1%Q; lra).
      assert (k - 1 < Qceiling number)
        by (rewrite Zlt_Qlt, inject_Z_sub; change (inject_Z 1) with 1%Q; lra).
      lia. }
    destruct (Qle_bool (key (k - 1)) (key k)) eqn:E; [|lia].
    apply Qle_bool_iff in E.
    destruct (Z.le_gt_cases 2 k) as [H2|H2]; [|lia].
    specialize (Kl H2). lra.
  - assert (Qfloor number = k) as ->.
    { assert (Qfloor number < k + 1)
        by (rewrite Zlt_Qlt, inject_Z_plus; change (inject_Z 1) with 1%Q; lra).
      assert (k - 1 < Qfloor number)
        by (rewrite Zlt_Qlt, inject_Z_sub; change (inject_Z 1) with 1%Q; lra).
      lia. }
    assert (Qceiling number = k + 1) as ->.
    { assert (Qceiling number < k + 2)
        by (rewrite Zlt_Qlt, inject_Z_plus; change (inject_Z 2) with 2%Q; lra).
      assert (k < Qceiling number) by (rewrite Zlt_Qlt; lra).
      lia. }
    assert (Qle_bool (key k) (key (k + 1)) = true) as ->
      by (apply Qle_bool_iff; lra).
    lia.
  - rewrite (Qfloor_comp _ _ Heq), (Qceiling_comp _ _ Heq), Qfloor_Z, Qceiling_Z.
    destruct (Qle_bool _ _); lia.
Qed.

(** The side [Image.thumbnail] computes.  [M] is the side it keeps, [W] and
    [H] are the shorter and the longer side of the image and [q] is the
    product or quotient that the code rounds to a double and then to an
    integer. *)
Lemma round_aspect_proportional (M W H : Z) (q : Q) (key : Z -> Q) :
  0 < W <= H -> H < 2 ^ 31 -> 0 < M < H -> (0 < q)%Q ->
  (inject_Z (M * W) * (1 - (2 # 9007199254740992)) <= q * inject_Z H)%Q ->
  (q * inject_Z H <= inject_Z (M * W) * (1 + (2 # 9007199254740992)))%Q ->
  (q <= inject_Z M)%Q ->
  1 <= PIL.round_aspect (Double.round53 q) key <= M /\
  PIL.round_aspect (Double.round53 q) key <= W /\
  (M < 2 ^ 20 ->
   (forall k, 1 <= k -> M * W = k * H ->
      (key k == 0)%Q /\ (2 <= k -> (0 < key (k - 1)%Z)%Q) /\ (0 <= key (k + 1)%Z)%Q) ->
   Z.abs (PIL.round_aspect (Double.round53 q) key * H - M * W) < H).
Proof.
  intros [HW HWH] HH [HM HMH] Hq Q1 Q2 QM.
  destruct (round53_error q Hq) as [E1 E2]. pose proof (round53_positive q Hq) as Pnb.
  assert (Double.round53 q <= inject_Z M)%Q as NM
    by (apply round53_le_integer; [exact Hq|exact QM|lia]).
  pose proof (inject_Z_pos H ltac:(lia)) as PH.
  pose proof (inject_Z_pos W HW) as PW.
  assert (inject_Z H <= 2147483648)%Q as BH
    by (change 2147483648%Q with (inject_Z (2 ^ 31)); rewrite <- Zle_Qle; lia).
  assert (1 <= inject_Z H)%Q as H1
    by (change 1%Q with (inject_Z 1); rewrite <- Zle_Qle; lia).
  assert (0 < inject_Z (M * W))%Q as PMW by (apply inject_Z_pos; nia).
  assert (q <= inject_Z W)%Q as QW.
  { apply (Qmult_le_r _ _ (inject_Z H) PH).
    assert (inject_Z (M * W) <= inject_Z W * inject_Z H - inject_Z W)%Q as B1.
    { rewrite <- inject_Z_mult, <- inject_Z_sub, <- Zle_Qle. nia. }
    pose proof (scale_le _ _ (inject_Z W) PW BH) as B2.
    assert (inject_Z H * inject_Z W == inject_Z W * inject_Z H)%Q as B3 by ring.
    rewrite B3 in B2. clear B3.
    revert Q2 B1 B2. generalize (inject_Z W * inject_Z H)%Q (q * inject_Z H)%Q (inject_Z (M * W)).
    intros. lra. }
  assert (Double.round53 q <= inject_Z W)%Q as NW
    by (apply round53_le_integer; [exact Hq|exact QW|lia]).
  set (nb := Double.round53 q) in *.
  destruct (round_aspect_facts nb key Pnb) as (R1 & R2 & R3 & R4).
  set (R := PIL.round_aspect nb key) in *.
  split; [split; [exact R1|apply R4; [lia|exact NM]]|].
  split; [apply R4; [lia|exact NW]|].
  intros HM20 Hkey.
  assert (inject_Z (M * W) <= 2251799813685248)%Q as BMW.
  { change 2251799813685248%Q with (inject_Z (2 ^ 51)). rewrite <- Zle_Qle.
    change (2 ^ 51) with (2 ^ 20 * 2 ^ 31). nia. }
  (* all products with [H] as atoms *)
  pose proof (scale_le _ _ (inject_Z H) PH E1) as N1.
  pose proof (scale_le _ _ (inject_Z H) PH E2) as N2.
  pose proof (scale_lt _ _ (inject_Z H) PH R2) as S1.
  pose proof (scale_lt _ _ (inject_Z H) PH R3) as S2.
  assert (q * (1 - (1 # 9007199254740992)) * inject_Z H
          == (1 - (1 # 9007199254740992)) * (q * inject_Z H))%Q as X1 by ring.
  assert (q * (1 + (1 # 9007199254740992)) * inject_Z H
          == (1 + (1 # 9007199254740992)) * (q * inject_Z H))%Q as X2 by ring.
  assert ((nb - 1) * inject_Z H == nb * inject_Z H - inject_Z H)%Q as X3 by ring.
  assert ((nb + 1) * inject_Z H == nb * inject_Z H + inject_Z H)%Q as X4 by ring.
  rewrite X1 in N1. rewrite X2 in N2. rewrite X3 in S1. rewrite X4 in S2.
  clear X1 X2 X3 X4.
  assert (nb * inject_Z H - inject_Z (M * W) < 1)%Q as D1.
  { revert N2 Q2 BMW PMW. generalize (nb * inject_Z H)%Q (q * inject_Z H)%Q (inject_Z (M * W)).
    intros. lra. }
  assert (inject_Z (M * W) - nb * inject_Z H < 1)%Q as D2.
  { revert N1 Q1 BMW PMW. generalize (nb * inject_Z H)%Q (q * inject_Z H)%Q (inject_Z (M * W)).
    intros. lra. }
  assert (R * H - M * W < H + 1) as Z1.
  { rewrite Zlt_Qlt, inject_Z_sub, inject_Z_plus, (inject_Z_mult R H).
    change (inject_Z 1) with 1%Q. lra. }
  assert (M * W - R * H < H + 1) as Z2.
  { rewrite Zlt_Qlt, inject_Z_sub, inject_Z_plus, (inject_Z_mult R H).
    change (inject_Z 1) with 1%Q. lra. }
  assert (forall k, M * W = k * H -> R = k) as Hexact.
  { intros k Hk. assert (1 <= k) as Hk1 by nia.
    destruct (Hkey k Hk1 Hk) as (K0 & Kl & Ku).
    unfold R. apply round_aspect_exact; try assumption.
    - apply (Qmult_lt_r _ _ (inject_Z H) PH).
      assert ((inject_Z k - 1) * inject_Z H == inject_Z (M * W) - inject_Z H)%Q as ->
        by (rewrite Hk, inject_Z_mult; ring).
      lra.
    - apply (Qmult_lt_r _ _ (inject_Z H) PH).
      assert ((inject_Z k + 1) * inject_Z H == inject_Z (M * W) + inject_Z H)%Q as ->
        by (rewrite Hk, inject_Z_mult; ring).
      lra. }
  destruct (Z.eq_dec (R * H - M * W) H) as [Ea|Na].
  { specialize (Hexact (R - 1) ltac:(lia)). lia. }
  destruct (Z.eq_dec (M * W - R * H) H) as [Eb|Nb].
  { specialize (Hexact (R + 1) ltac:(lia)). lia. }
  lia.
Qed.

(** The keys of [round_aspect] when the width is computed: zero at the
    exact width, not zero just below it. *)
Lemma key_of_width (w h m k : Z) :
  0 < w -> 0 < h -> 0 < m -> 1 <= k -> k < 2 ^ 31 -> m * w = k * h ->
  (Qabs (Double.sub (Double.div (inject_Z w) (inject_Z h))
           (Double.div (inject_Z k) (inject_Z m))) == 0)%Q /\
  (2 <= k ->
   (0 < Qabs (Double.sub (Double.div (inject_Z w) (inject_Z h))
                (Double.div (inject_Z (k - 1)) (inject_Z m))))%Q).
Proof.
  intros Hw Hh Hm Hk Hk31 E.
  pose proof (div_eq w h k m Hh Hm ltac:(lia)) as EA.
  split.
  - apply Qabs_zero. unfold Double.sub. rewrite round53_zero; [reflexivity|].
    rewrite EA. ring.
  - intros H2. pose proof (div_lt_dividend (k - 1) k m ltac:(lia) ltac:(lia) Hk31 Hm) as Hlt.
    rewrite <- EA in Hlt. unfold Double.sub.
    rewrite Qabs_pos_eq; apply round53_positive; lra.
Qed.

(** The keys of [round_aspect] when the height is computed. *)
Lemma key_of_height (w h m k : Z) :
  0 < w -> 0 < h -> 0 < m -> 1 <= k -> k < 2 ^ 31 -> m * h = k * w ->
  (Qabs (Double.sub (Double.div (inject_Z w) (inject_Z h))
           (Double.div (inject_Z m) (inject_Z k))) == 0)%Q /\
  (2 <= k ->
   (0 < Qabs (Double.sub (Double.div (inject_Z w) (inject_Z h))
                (Double.div (inject_Z m) (inject_Z (k - 1)))))%Q).
Proof.
  intros Hw Hh Hm Hk Hk31 E.
  pose proof (div_eq w h m k Hh ltac:(lia) ltac:(lia)) as EA.
  split.
  - apply Qabs_zero. unfold Double.sub. rewrite round53_zero; [reflexivity|].
    rewrite EA. ring.
  - intros H2. pose proof (div_lt_divisor m (k - 1) k Hm ltac:(lia) ltac:(lia) Hk31) as Hlt.
    rewrite <- EA in Hlt. unfold Double.sub.
    apply Qabs_nonzero_pos. intros Hz.
    assert (Double.round53 (Double.div (inject_Z w) (inject_Z h)
                            - Double.div (inject_Z m) (inject_Z (k - 1))) < 0)%Q
      by (apply round53_negative; lra).
    lra.
Qed.

(** The size Pillow gives an image that does not fit a square of side [m]:
    it fits, touches the square, enlarges neither side, and for [m] below
    2^20 keeps the proportions to within a pixel. *)
Lemma thumbnail_size_square (w h m : Z) :
  0 < w < 2 ^ 31 -> 0 < h < 2 ^ 31 -> 0 < m -> m < Z.max w h ->
  exists x y,
    PIL.thumbnail_size w h (m, m) = inr (Some (x, y)) /\
    Z.max x y = m /\ 1 <= Z.min x y /\ x <= w /\ y <= h /\
    (h < w -> x = m) /\ (w <= h -> y = m) /\
    (m < 2 ^ 20 -> Z.abs (x * h - y * w) < Z.max w h).
Proof.
  intros [Hw Hw31] [Hh Hh31] Hm Hmax.
  unfold PIL.thumbnail_size.
  assert ((m >=? w) && (m >=? h) = false) as ->.
  { apply andb_false_iff. rewrite !Z.geb_leb, !Z.leb_gt. lia. }
  assert ((h =? 0) || (m =? 0) = false) as ->.
  { apply orb_false_iff. rewrite !Z.eqb_neq. lia. }
  destruct (aspect_bounds w h Hw Hh) as (PA & A1 & A2).
  pose proof (inject_Z_pos w Hw) as PW. pose proof (inject_Z_pos h Hh) as PH.
  pose proof (inject_Z_pos m Hm) as PM.
  assert (inject_Z h <= 2147483648)%Q as BH
    by (change 2147483648%Q with (inject_Z (2 ^ 31)); rewrite <- Zle_Qle; lia).
  assert (Double.div (inject_Z m) (inject_Z m) == 1)%Q as Hone.
  { unfold Double.div. apply (round53_integer _ 1); [field; lra|lia]. }
  assert (Double.of_int m == inject_Z m)%Q as Hmf.
  { unfold Double.of_int. apply round53_integer; [reflexivity|lia]. }
  destruct (Qle_bool (Double.div (inject_Z w) (inject_Z h))
              (Double.div (inject_Z m) (inject_Z m))) eqn:E.
  - apply Qle_bool_iff in E. rewrite Hone in E.
    assert (w <= h) as Hwh.
    { destruct (Z.le_gt_cases w h) as [Hle|Hgt]; [exact Hle|exfalso].
      pose proof (inject_Z_below h w ltac:(lia)) as Hb.
      revert A1 E Hb PH BH. generalize (Double.div (inject_Z w) (inject_Z h)).
      intros A A1 E Hb PH BH.
      assert (A * inject_Z h <= inject_Z h)%Q by nra. lra. }
    unfold Double.mul.
    set (A := Double.div (inject_Z w) (inject_Z h)) in *.
    set (key := fun n : Z => Qabs (Double.sub A (Double.div (inject_Z n) (inject_Z m)))).
    assert (0 < Double.of_int m * A)%Q as Pq
      by (rewrite Hmf; apply Qmult_lt_0_compat; assumption).
    assert (Double.of_int m * A * inject_Z h == inject_Z m * (A * inject_Z h))%Q as Eq
      by (rewrite Hmf; ring).
    pose proof (scale_le _ _ (inject_Z m) PM A1) as B1.
    pose proof (scale_le _ _ (inject_Z m) PM A2) as B2.
    destruct (round_aspect_proportional m w h (Double.of_int m * A) key)
      as ((R1 & R2) & R3 & R4); try lia; try assumption.
    + rewrite Eq, inject_Z_mult.
      assert (inject_Z m * (A * inject_Z h) == A * inject_Z h * inject_Z m)%Q as -> by ring.
      assert (inject_Z w * (1 - (1 # 9007199254740992)) * inject_Z m
              == (1 - (1 # 9007199254740992)) * (inject_Z m * inject_Z w))%Q as X by ring.
      rewrite X in B1.
      assert (0 < inject_Z m * inject_Z w)%Q as PMW by (apply Qmult_lt_0_compat; assumption).
      revert B1 PMW. generalize (A * inject_Z h * inject_Z m)%Q (inject_Z m * inject_Z w)%Q.
      intros. lra.
    + rewrite Eq, inject_Z_mult.
      assert (inject_Z m * (A * inject_Z h) == A * inject_Z h * inject_Z m)%Q as -> by ring.
      assert (inject_Z w * (1 + (1 # 9007199254740992)) * inject_Z m
              == (1 + (1 # 9007199254740992)) * (inject_Z m * inject_Z w))%Q as X by ring.
      rewrite X in B2.
      assert (0 < inject_Z m * inject_Z w)%Q as PMW by (apply Qmult_lt_0_compat; assumption).
      revert B2 PMW. generalize (A * inject_Z h * inject_Z m)%Q (inject_Z m * inject_Z w)%Q.
      intros. lra.
    + rewrite Hmf.
      assert (inject_Z m * A <= inject_Z m * 1)%Q
        by (rewrite !(Qmult_comm (inject_Z m)); apply scale_le; assumption).
      lra.
    + exists (PIL.round_aspect (Double.round53 (Double.of_int m * A)) key), m.
      split; [reflexivity|]. repeat split; try lia.
      intros H20. rewrite Z.max_r by lia. apply R4; [exact H20|].
      intros k Hk1 Hk.
      assert (k < 2 ^ 31) as Hk31 by nia.
      destruct (key_of_width w h m k Hw Hh Hm Hk1 Hk31 Hk) as [K0 K1].
      split; [exact K0|]. split; [exact K1|]. apply Qabs_nonneg.
  - assert (~ (Double.div (inject_Z w) (inject_Z h) <= 1)%Q) as Hgt.
    { rewrite <- Hone, <- Qle_bool_iff, E. discriminate. }
    apply Qnot_le_lt in Hgt. clear E.
    assert (h < w) as Hhw.
    { destruct (Z.le_gt_cases w h) as [Hle|Hlt]; [exfalso|lia].
      assert (Double.div (inject_Z w) (inject_Z h) <= inject_Z 1)%Q; [|change (inject_Z 1) with 1%Q in *; lra].
      unfold Double.div. apply round53_le_integer; [apply Qlt_shift_div_l; lra|
        apply Qle_shift_div_r; [lra|]|lia].
      change (inject_Z 1) with 1%Q. rewrite Qmult_1_l, <- Zle_Qle. exact Hle. }
    assert (Qeq_bool (Double.div (inject_Z w) (inject_Z h)) 0 = false) as ->.
    { apply not_true_iff_false. rewrite Qeq_bool_iff. lra. }
    unfold Double.div at 2.
    set (A := Double.div (inject_Z w) (inject_Z h)) in *.
    set (key := fun n : Z =>
                  if n =? 0 then 0%Q
                  else Qabs (Double.sub A (Double.div (inject_Z m) (inject_Z n)))).
    assert (0 < Double.of_int m / A)%Q as Pq
      by (apply Qlt_shift_div_l; [exact PA|rewrite Hmf; lra]).
    assert (Double.of_int m / A * A == inject_Z m)%Q as EqA by (rewrite Hmf; field; lra).
    assert (Double.of_int m / A * (A * inject_Z h) == inject_Z m * inject_Z h)%Q as Eq
      by (rewrite Qmult_assoc, EqA; reflexivity).
    pose proof (scale_le _ _ (Double.of_int m / A) Pq A1) as B1.
    pose proof (scale_le _ _ (Double.of_int m / A) Pq A2) as B2.
    rewrite (Qmult_comm (A * inject_Z h)), Eq in B1, B2.
    assert (inject_Z w * (1 - (1 # 9007199254740992)) * (Double.of_int m / A)
            == (1 - (1 # 9007199254740992)) * (Double.of_int m / A * inject_Z w))%Q as X1 by ring.
    assert (inject_Z w * (1 + (1 # 9007199254740992)) * (Double.of_int m / A)
            == (1 + (1 # 9007199254740992)) * (Double.of_int m / A * inject_Z w))%Q as X2 by ring.
    rewrite X1 in B1. rewrite X2 in B2. clear X1 X2.
    assert (0 < inject_Z m * inject_Z h)%Q as PMH by (apply Qmult_lt_0_compat; assumption).
    destruct (round_aspect_proportional m h w (Double.of_int m / A) key)
      as ((R1 & R2) & R3 & R4); try lia; try assumption.
    + rewrite inject_Z_mult.
      revert B2 PMH. generalize (Double.of_int m / A * inject_Z w)%Q (inject_Z m * inject_Z h)%Q.
      intros. lra.
    + rewrite inject_Z_mult.
      revert B1 PMH. generalize (Double.of_int m / A * inject_Z w)%Q (inject_Z m * inject_Z h)%Q.
      intros. lra.
    + rewrite <- EqA.
      assert (Double.of_int m / A * 1 <= Double.of_int m / A * A)%Q
        by (rewrite !(Qmult_comm (Double.of_int m / A)); apply scale_le; [exact Pq|lra]).
      lra.
    + exists m, (PIL.round_aspect (Double.round53 (Double.of_int m / A)) key).
      split; [reflexivity|]. repeat split; try lia.
      intros H20. rewrite Z.max_l by lia.
      assert (Z.abs (PIL.round_aspect (Double.round53 (Double.of_int m / A)) key * w - m * h) < w);
        [|lia].
      apply R4; [exact H20|].
      intros k Hk1 Hk.
      assert (k < 2 ^ 31) as Hk31 by nia.
      destruct (key_of_height w h m k Hw Hh Hm Hk1 Hk31 Hk) as [K0 K1].
      unfold key.
      assert ((k =? 0) = false) as -> by (apply Z.eqb_neq; lia).
      assert ((k + 1 =? 0) = false) as -> by (apply Z.eqb_neq; lia).
      split; [exact K0|]. split; [|apply Qabs_nonneg].
      intros H2. assert ((k - 1 =? 0) = false) as -> by (apply Z.eqb_neq; lia).
      exact (K1 H2).
Qed.

(** ** Paths *)

Lemma os_path_join_relative (a b : string) :
  String.prefix "/" b = false -> String.eqb a "" || ends_with_slash a = false ->
  os_path_join a b = a +:+ "/" +:+ b.
Proof. intros Hb Ha. unfold os_path_join. now rewrite Hb, Ha. Qed.

Lemma prefix_slash_cons (c : ascii) (r : string) :
  String.prefix "/" (String c r) = if ascii_dec "/" c then true else false.
Proof.
  cbn -[ascii_dec]. destruct (ascii_dec "/" c); [|reflexivity]. now destruct r.
Qed.

(** The output name does not start with a slash when the staged name does
    not. *)
Lemma stem_relative (s : string) :
  String.prefix "/" s = false ->
  String.prefix "/" (default "" (head (PyStr.rsplit1 "." s)) +:+ ".jpg") = false.
Proof.
  intros Hs. unfold PyStr.rsplit1.
  destruct (PyStr.rsplit_last "." s) as [[pre suf]|] eqn:E; cbn [head default from_option id].
  - apply rsplit_last_some in E as [-> _].
    destruct pre as [|c pre]; [reflexivity|].
    change (String c pre +:+ String "." suf) with (String c (pre +:+ String "." suf)) in Hs.
    change (String c pre +:+ ".jpg") with (String c (pre +:+ ".jpg")).
    rewrite prefix_slash_cons in *. assumption.
  - destruct s as [|c r]; [reflexivity|].
    change (String c r +:+ ".jpg") with (String c (r +:+ ".jpg")).
    rewrite prefix_slash_cons in *. assumption.
Qed.

Section Paths.

Context (P : Platform).

Lemma input_path_of_eq (file : FileStorage) :
  input_path_of P file = "uploads/" +:+ staged_name P file.
Proof.
  unfold input_path_of. rewrite os_path_join_relative; [reflexivity| |reflexivity].
  apply secure_filename_relative.
Qed.

Lemma output_path_of_eq (file : FileStorage) :
  output_path_of P file = "converted/" +:+ output_filename_of P file.
Proof.
  unfold output_path_of. rewrite os_path_join_relative; [reflexivity| |reflexivity].
  apply stem_relative, secure_filename_relative.
Qed.

(** The staged input and the output are different files. *)
Lemma paths_differ (file : FileStorage) :
  input_path_of P file <> output_path_of P file.
Proof. rewrite input_path_of_eq, output_path_of_eq. discriminate. Qed.

End Paths.

(** ** The converter *)

Section Converter.

Context (P : Platform).

(** Bounding the size of an image leaves the world alone. *)
Lemma bounded_world (img : Image) (max_size : Z * Z) (w : world) :
  snd (bounded P img max_size w) = w.
Proof.
  unfold bounded, Image_thumbnail.
  destruct (_ >? _); [|reflexivity].
  destruct (PIL.thumbnail_size _ _ _) as [e|[[x y]|]]; try reflexivity.
  destruct (_ && _); [reflexivity|]. destruct (_ || _); reflexivity.
Qed.

(** The image the converter encodes, for a square bound of side [m]. *)
Lemma bounded_square (img : Image) (m : Z) (w : world) :
  0 < width img < 2 ^ 31 -> 0 < height img < 2 ^ 31 -> 0 < m ->
  exists img',
    bounded P img (m, m) w = (inr img', w) /\
    (Z.max (width img) (height img) <= m -> img' = img) /\
    (m < Z.max (width img) (height img) ->
       raster img' = resample P img (width img', height img') /\
       Z.max (width img') (height img') = m /\
       1 <= Z.min (width img') (height img') /\
       width img' <= width img /\ height img' <= height img /\
       (height img < width img -> width img' = m) /\
       (width img <= height img -> height img' = m) /\
       (m < 2 ^ 20 ->
        Z.abs (width img' * height img - height img' * width img)
          < Z.max (width img) (height img))).
Proof.
  intros Hw Hh Hm. unfold bounded. cbn [fst snd]. rewrite Z.max_id.
  destruct (Z.max (width img) (height img) >? m) eqn:E.
  - apply Z.gtb_lt in E.
    destruct (thumbnail_size_square (width img) (height img) m Hw Hh Hm E)
      as (x & y & Hsz & Hmax & Hmin & Hx & Hy & Hwide & Htall & Hasp).
    unfold Image_thumbnail. rewrite Hsz.
    assert ((x =? width img) && (y =? height img) = false) as ->.
    { apply andb_false_iff. rewrite !Z.eqb_neq. lia. }
    assert ((x <? 1) || (y <? 1) = false) as ->.
    { apply orb_false_iff. rewrite !Z.ltb_ge. lia. }
    eexists. split; [reflexivity|]. cbn [width height raster].
    split; [lia|]. intros _. repeat split; auto.
  - rewrite Z.gtb_ltb in E. apply Z.ltb_ge in E.
    exists img. split; [reflexivity|]. split; [reflexivity|]. lia.
Qed.

(** The converter on an input that decodes to an image whose bounding
    succeeds: what it returns and leaves is decided by the disk and the
    encoder. *)
Lemma convert_decoded
    (input_path output_path : string) (max_size : Z * Z) (w : world)
    (data : list Byte.byte) (img img' : Image) :
  files w !! input_path = Some data -> image_open P data = Some img ->
  bounded P img max_size w = (inr img', w) ->
  convert_tif_to_jpg P input_path output_path max_size w =
    match write_fault P w output_path with
    | Fault residue => (inr false, leave output_path residue w)
    | NoFault =>
        match jpeg_encode P img' 80 true with
        | Encoded jpeg => (inr true, write_file output_path jpeg w)
        | EncodeError residue => (inr false, leave output_path residue w)
        end
    end.
Proof.
  intros Hfile Hdec Hb.
  unfold convert_tif_to_jpg, try_except, bind, Image_open.
  rewrite Hfile, Hdec, Hb. unfold Image_save.
  destruct (write_fault P w output_path); [|reflexivity].
  destruct (jpeg_encode P img' 80 true); reflexivity.
Qed.

(** C6: for a decoded image (its sides positive and, as for every Pillow
    image, below 2^31) the converter encodes an image [img'] with these
    dimensions.  When the longer side is at most 2800, [img'] is the decoded
    image itself.  When it exceeds 2800, the longer side of [img'] is exactly
    2800 and the shorter side is at least 1 and less than one pixel away
    from the proportional value.  [img'] is the image the converter hands to
    the JPEG encoder: unless the disk or the encoder fails, the converter
    returns [True] and the output path holds the encoding of [img']. *)
Theorem convert_bounds_dimensions
    (input_path output_path : string) (w : world) (data : list Byte.byte) (img : Image) :
  files w !! input_path = Some data -> image_open P data = Some img ->
  0 < width img < 2 ^ 31 -> 0 < height img < 2 ^ 31 ->
  exists img',
    bounded P img (2800, 2800) w = (inr img', w) /\
    (Z.max (width img) (height img) <= 2800 -> img' = img) /\
    (2800 < Z.max (width img) (height img) ->
       Z.max (width img') (height img') = 2800 /\
       1 <= Z.min (width img') (height img') /\
       Z.abs (width img' * height img - height img' * width img)
         < Z.max (width img) (height img) /\
       (height img <= width img -> width img' = 2800) /\
       (width img <= height img -> height img' = 2800) /\
       raster img' = resample P img (width img', height img')) /\
    convert_tif_to_jpg P input_path output_path (2800, 2800) w =
      match write_fault P w output_path with
      | Fault residue => (inr false, leave output_path residue w)
      | NoFault =>
          match jpeg_encode P img' 80 true with
          | Encoded jpeg => (inr true, write_file output_path jpeg w)
          | EncodeError residue => (inr false, leave output_path residue w)
          end
      end.
Proof.
  intros Hfile Hdec Hw Hh.
  destruct (bounded_square img 2800 w Hw Hh ltac:(lia)) as (img' & Hb & Hsmall & Hlarge).
  exists img'. split; [exact Hb|]. split; [exact Hsmall|].
  split; [|exact (convert_decoded _ _ _ _ _ _ _ Hfile Hdec Hb)].
  intros Hbig.
  destruct (Hlarge Hbig) as (Hras & Hmax & Hmin & Hx & Hy & Hwide & Htall & Hasp).
  specialize (Hasp ltac:(lia)).
  split; [exact Hmax|]. split; [exact Hmin|]. split; [exact Hasp|].
  split; [|split; [exact Htall|exact Hras]].
  intros Hle. destruct (Z.eq_dec (height img) (width img)) as [Heq|Hne].
  - specialize (Htall ltac:(lia)). rewrite Htall, Heq in Hasp.
    rewrite Z.max_id in Hasp. nia.
  - apply Hwide. lia.
Qed.

(** C7: for every input, world and bound the converter returns a boolean:
    no exception escapes.  It returns [True] exactly when the input file
    exists and decodes, bounding its size does not fail, the disk takes the
    write and the JPEG encoder succeeds; the output path then holds that
    JPEG.  A missing or undecodable input and a failing encoder give
    [False]. *)
Theorem convert_tif_to_jpg_total
    (input_path output_path : string) (max_size : Z * Z) (w : world) :
  exists (ok : bool) (w' : world),
    convert_tif_to_jpg P input_path output_path max_size w = (inr ok, w') /\
    (ok = true <->
     exists data img img' jpeg,
       files w !! input_path = Some data /\ image_open P data = Some img /\
       bounded P img max_size w = (inr img', w) /\
       write_fault P w output_path = NoFault /\
       jpeg_encode P img' 80 true = Encoded jpeg) /\
    (forall data img img' jpeg,
       files w !! input_path = Some data -> image_open P data = Some img ->
       bounded P img max_size w = (inr img', w) ->
       write_fault P w output_path = NoFault ->
       jpeg_encode P img' 80 true = Encoded jpeg ->
       w' = write_file output_path jpeg w /\ files w' !! output_path = Some jpeg) /\
    (files w !! input_path = None -> ok = false /\ w' = w) /\
    (forall data,
       files w !! input_path = Some data -> image_open P data = None ->
       ok = false /\ w' = w) /\
    (forall data img img' residue,
       files w !! input_path = Some data -> image_open P data = Some img ->
       bounded P img max_size w = (inr img', w) ->
       jpeg_encode P img' 80 true = EncodeError residue -> ok = false).
Proof.
  destruct (files w !! input_path) as [data|] eqn:Hfile.
  2:{ exists false, w. split.
      { unfold convert_tif_to_jpg, try_except, bind, Image_open. now rewrite Hfile. }
      split; [split; [discriminate|intros (? & ? & ? & ? & ? & _); discriminate]|].
      split; [discriminate|]. split; [auto|]. split; discriminate. }
  destruct (image_open P data) as [img|] eqn:Hdec.
  2:{ exists false, w. split.
      { unfold convert_tif_to_jpg, try_except, bind, Image_open. now rewrite Hfile, Hdec. }
      split; [split; [discriminate|intros (? & ? & ? & ? & [= <-] & ? & _); congruence]|].
      split; [intros ? ? ? ? [= <-]; congruence|]. split; [discriminate|].
      split; [auto|]. intros ? ? ? ? [= <-]. congruence. }
  pose proof (bounded_world img max_size w) as Hbw.
  destruct (bounded P img max_size w) as [[e|img'] wb] eqn:Hb; cbn [snd] in Hbw; subst wb.
  { exists false, w. split.
    { unfold convert_tif_to_jpg, try_except, bind, Image_open. now rewrite Hfile, Hdec, Hb. }
    split; [split; [discriminate|intros (? & ? & ? & ? & [= <-] & Hd & Hb' & _); congruence]|].
    split; [intros ? ? ? ? [= <-] Hd Hb'; congruence|]. split; [discriminate|].
    split; [intros ? [= <-]; congruence|]. intros ? ? ? ? [= <-] Hd Hb'. congruence. }
  rewrite (convert_decoded _ output_path _ _ _ _ _ Hfile Hdec Hb).
  destruct (write_fault P w output_path) as [|residue] eqn:Hfault.
  2:{ eexists false, _. split; [reflexivity|].
      split; [split; [discriminate|intros (? & ? & ? & ? & _ & _ & _ & ? & _); discriminate]|].
      split; [intros; discriminate|]. split; [discriminate|].
      split; [intros ? [= <-]; congruence|]. reflexivity. }
  destruct (jpeg_encode P img' 80 true) as [jpeg|residue] eqn:Henc.
  - exists true, (write_file output_path jpeg w). split; [reflexivity|].
    split; [split; [intros _; exists data, img, img', jpeg; auto|reflexivity]|].
    split.
    { intros ? ? ? ? [= <-] Hd Hb' _ He.
      assert (img'0 = img') as -> by congruence.
      assert (jpeg0 = jpeg) as -> by congruence.
      split; [reflexivity|apply lookup_insert_eq]. }
    split; [discriminate|]. split; [intros ? [= <-]; congruence|].
    intros ? ? ? ? [= <-] Hd Hb' He. congruence.
  - eexists false, _. split; [reflexivity|].
    split; [split; [discriminate|
      intros (? & ? & ? & ? & [= <-] & Hd & Hb' & _ & Henc'); congruence]|].
    split; [intros ? ? ? ? [= <-] Hd Hb' _ He; congruence|]. split; [discriminate|].
    split; [intros ? [= <-]; congruence|]. reflexivity.
Qed.

End Converter.

(** ** Runs of the single-file pipeline *)

Lemma os_remove_present (path : string) (w : world) (data : list Byte.byte) :
  files w !! path = Some data -> os_remove path w = (inr tt, removed path w).
Proof. intros H. unfold os_remove. now rewrite H. Qed.

Lemma os_path_getsize_present (path : string) (w : world) (data : list Byte.byte) :
  files w !! path = Some data ->
  os_path_getsize path w = (inr (Z.of_nat (length data)), w).
Proof. intros H. unfold os_path_getsize. now rewrite H. Qed.

Lemma remove_if_exists_run (path : string) (w : world) :
  remove_if_exists path w = (inr tt, cleaned path w).
Proof.
  unfold remove_if_exists, cleaned, bind, os_path_exists.
  destruct (bool_decide_reflect (is_Some (files w !! path))) as [[data H]|H].
  - now apply os_remove_present with data.
  - reflexivity.
Qed.

Lemma cleaned_absent (path : string) (w : world) : files (cleaned path w) !! path = None.
Proof.
  unfold cleaned. destruct (bool_decide_reflect (is_Some (files w !! path))) as [H|H].
  - apply lookup_delete_eq.
  - now apply eq_None_not_Some.
Qed.

Section SingleFile.

Context (P : Platform).

(** The converter returns; it wrote the output path when it says [True],
    and otherwise left there what the failed write left. *)
Lemma convert_effect (input_path output_path : string) (max_size : Z * Z)
    (w : world) (r : exn + bool) (w' : world) :
  convert_tif_to_jpg P input_path output_path max_size w = (r, w') ->
  (r = inr true /\ exists jpeg, w' = write_file output_path jpeg w) \/
  (r = inr false /\ exists residue, w' = leave output_path residue w).
Proof.
  unfold convert_tif_to_jpg, try_except, bind, Image_open.
  destruct (files w !! input_path) as [data|];
    [|intros [= <- <-]; right; split; [reflexivity|now exists None]].
  destruct (image_open P data) as [img|];
    [|intros [= <- <-]; right; split; [reflexivity|now exists None]].
  pose proof (bounded_world P img max_size w) as Hbw.
  destruct (bounded P img max_size w) as [[e|img'] wb]; cbn [snd] in Hbw; subst wb;
    [intros [= <- <-]; right; split; [reflexivity|now exists None]|].
  unfold Image_save.
  destruct (write_fault P w output_path) as [|residue].
  - destruct (jpeg_encode P img' 80 true) as [jpeg|residue]; intros [= <- <-].
    + left. eauto.
    + right. eauto.
  - intros [= <- <-]. right. eauto.
Qed.

Lemma lookup_staged_after_output (file : FileStorage) (w : world)
    (data : list Byte.byte) (residue : option (list Byte.byte)) :
  files (leave (output_path_of P file) residue
           (write_file (input_path_of P file) data w)) !! input_path_of P file
  = Some data.
Proof.
  pose proof (paths_differ P file) as Hne.
  destruct residue as [d|]; cbn [leave write_file files].
  - rewrite lookup_insert_ne by congruence. apply lookup_insert_eq.
  - apply lookup_insert_eq.
Qed.

Lemma lookup_staged_after_write (file : FileStorage) (w : world)
    (data jpeg : list Byte.byte) :
  files (write_file (output_path_of P file) jpeg
           (write_file (input_path_of P file) data w)) !! input_path_of P file
  = Some data.
Proof. apply (lookup_staged_after_output file w data (Some jpeg)). Qed.

Lemma lookup_output_after_unstage (file : FileStorage) (w : world) (jpeg : list Byte.byte) :
  files (removed (input_path_of P file) (write_file (output_path_of P file) jpeg w))
    !! output_path_of P file = Some jpeg.
Proof.
  pose proof (paths_differ P file) as Hne. cbn [removed write_file files].
  rewrite lookup_delete_ne by congruence. apply lookup_insert_eq.
Qed.

(** Every run of the [try] returns a response, in one of the five ways. *)
Lemma convert_image_try_run (file : FileStorage) (w : world) :
  exists resp w', convert_image_try P file w = (inr resp, w') /\ try_run P file w resp w'.
Proof.
  unfold convert_image_try, try_except, bind at 1. unfold FileStorage_save.
  destruct (write_fault P w (input_path_of P file)) as [|residue] eqn:Hsave.
  2:{ unfold bind. rewrite remove_if_exists_run. eexists _, _.
      split; [reflexivity|]. now apply run_save_failed. }
  unfold bind at 1.
  destruct (convert_tif_to_jpg P _ _ _ _) as [r w2] eqn:Hconv.
  destruct (convert_effect _ _ _ _ _ _ Hconv) as [[-> [jpeg ->]]|[-> [residue ->]]].
  - unfold bind at 1.
    rewrite (os_remove_present _ _ _ (lookup_staged_after_write file w _ jpeg)).
    unfold bind at 1.
    rewrite (os_path_getsize_present _ _ _ (lookup_output_after_unstage file _ jpeg)).
    destruct (Z.of_nat (length jpeg) >? MAX_OUTPUT_FILE_SIZE) eqn:Hsize.
    + unfold bind.
      rewrite (os_remove_present _ _ _ (lookup_output_after_unstage file _ jpeg)).
      eexists _, _. split; [reflexivity|].
      apply run_output_too_large; [assumption..|]. now apply Z.gtb_lt.
    + assert (Z.of_nat (length jpeg) <= MAX_OUTPUT_FILE_SIZE)
        by (rewrite Z.gtb_ltb in Hsize; now apply Z.ltb_ge).
      unfold send_file. rewrite lookup_output_after_unstage.
      destruct (send_fault P _ _) eqn:Hsend.
      * unfold bind. rewrite remove_if_exists_run. unfold cleaned.
        rewrite bool_decide_eq_false_2.
        -- eexists _, _. split; [reflexivity|]. now apply run_send_failed.
        -- cbn [removed files]. rewrite lookup_delete_eq. now intros [? ?].
      * eexists _, _. split; [reflexivity|]. now apply run_sent.
  - unfold bind. rewrite remove_if_exists_run. unfold cleaned.
    rewrite bool_decide_eq_true_2
      by (rewrite lookup_staged_after_output; eauto).
    eexists _, _. split; [reflexivity|]. now apply run_conversion_failed.
Qed.

End SingleFile.

(** ** The validated upload *)

Lemma md_contains_getlist (key : string) (d : MultiDict) :
  md_contains key d = false <-> md_getlist key d = [].
Proof.
  unfold md_contains. induction d as [|[k f] d IH]; [tauto|].
  cbn [existsb fst md_getlist].
  destruct (String.eqb k key); cbn [orb]; [split; discriminate|exact IH].
Qed.

Lemma md_get_head (key : string) (d : MultiDict) (file : FileStorage) (w : world) :
  head (md_getlist key d) = Some file -> md_get key d w = (inr file, w).
Proof. unfold md_get. destruct (md_getlist key d); [discriminate|]. now intros [= ->]. Qed.

Lemma head_getlist_contains (key : string) (d : MultiDict) (file : FileStorage) :
  head (md_getlist key d) = Some file -> md_contains key d = true.
Proof.
  intros H. apply not_false_is_true. intros E.
  apply md_contains_getlist in E. rewrite E in H. discriminate.
Qed.

(** What [check_file_size] answers and what it leaves. *)
Lemma check_file_size_answer (file : FileStorage) :
  fst (check_file_size file) = (stream_length file <=? MAX_INPUT_FILE_SIZE).
Proof.
  unfold check_file_size, seek, tell, stream_length. cbn. f_equal. lia.
Qed.

Lemma check_file_size_rewinds (file : FileStorage) :
  snd (check_file_size file) = mkFile (filename file) (stream file) 0.
Proof. reflexivity. Qed.

Lemma read_rewound (name : string) (data : list Byte.byte) :
  fst (read (mkFile name data 0)) = data.
Proof. reflexivity. Qed.

Section Validated.

Context (P : Platform).

(** [convert_image] once the request is known to carry a file. *)
Lemma convert_image_with_file (request_files : MultiDict) (file : FileStorage) (w : world) :
  head (md_getlist "file" request_files) = Some file ->
  convert_image P request_files w =
  (if String.eqb (filename file) "" then
     ret (ErrorJson "No file selected", 400)
   else if negb (allowed_file (filename file)) then
     ret (ErrorJson "Invalid file type. Only TIF/TIFF files are allowed", 400)
   else if negb (stream_length file <=? MAX_INPUT_FILE_SIZE) then
     ret (ErrorJson "File size exceeds maximum limit of 1024.0MB", 400)
   else convert_image_try P (rewound file)) w.
Proof.
  intros Hhead. unfold convert_image.
  rewrite (head_getlist_contains _ _ _ Hhead). cbn [negb].
  unfold bind. rewrite (md_get_head _ _ _ _ Hhead).
  destruct (String.eqb (filename file) ""); [reflexivity|].
  destruct (allowed_file (filename file)); [|reflexivity]. cbn [negb].
  pose proof (check_file_size_answer file) as Ha.
  pose proof (check_file_size_rewinds file) as Hr.
  destruct (check_file_size file) as [within file']. cbn [fst snd] in Ha, Hr.
  subst. destruct (stream_length file <=? MAX_INPUT_FILE_SIZE); reflexivity.
Qed.

(** A validated upload reaches the [try]. *)
Lemma convert_image_validated (request_files : MultiDict) (file : FileStorage) (w : world) :
  head (md_getlist "file" request_files) = Some file ->
  filename file <> "" -> allowed_file (filename file) = true ->
  stream_length file <= MAX_INPUT_FILE_SIZE ->
  convert_image P request_files w = convert_image_try P (rewound file) w.
Proof.
  intros Hhead Hname Hext Hsize. rewrite (convert_image_with_file _ _ _ Hhead).
  apply String.eqb_neq in Hname. apply Z.leb_le in Hsize.
  now rewrite Hname, Hext, Hsize.
Qed.

End Validated.

(** ** C1 *)

Lemma string_app_assoc (a b c : string) : (a +:+ b) +:+ c = a +:+ b +:+ c.
Proof.
  induction a as [|x a IH]; [reflexivity|].
  change (String x ((a +:+ b) +:+ c) = String x (a +:+ b +:+ c)). now f_equal.
Qed.

(** The message of the single-file handler for an oversized output. *)
Lemma size_message_of_limit (n : Z) :
  size_message n +:+ " of 10.0MB"
  = "Output file size (" +:+ PyFloat.format_1f (PyFloat.megabytes n)
    +:+ "MB) exceeds limit of 10.0MB".
Proof. unfold size_message. rewrite !string_app_assoc. reflexivity. Qed.

Section SingleFileResponses.

Context (P : Platform).

(** C1 (amended): [POST /convert] always answers.  A missing file, an empty
    name, a wrong extension, an oversized input and an oversized output are
    answered with status 400 and an error body; a conversion that fails is
    answered with status 500 and the error [Conversion failed]; an exception
    while staging the upload or while sending the result is answered with
    status 500 and the error [Internal server error]; otherwise the JPEG is
    sent with status 200. *)
Theorem convert_image_responses (request_files : MultiDict) (w : world) :
  exists resp w',
    convert_image P request_files w = (inr resp, w') /\
    ((md_getlist "file" request_files = [] /\
      resp = (ErrorJson "No file provided", 400)) \/
     exists file,
       head (md_getlist "file" request_files) = Some file /\
       ((filename file = "" /\ resp = (ErrorJson "No file selected", 400)) \/
        (filename file <> "" /\ allowed_file (filename file) = false /\
         resp = (ErrorJson "Invalid file type. Only TIF/TIFF files are allowed", 400)) \/
        (filename file <> "" /\ allowed_file (filename file) = true /\
         MAX_INPUT_FILE_SIZE < stream_length file /\
         resp = (ErrorJson "File size exceeds maximum limit of 1024.0MB", 400)) \/
        (filename file <> "" /\ allowed_file (filename file) = true /\
         stream_length file <= MAX_INPUT_FILE_SIZE /\
         let staged := write_file (input_path_of P file) (stream file) w in
         ((exists residue,
             write_fault P w (input_path_of P file) = Fault residue /\
             resp = (ErrorJson "Internal server error", 500)) \/
          (write_fault P w (input_path_of P file) = NoFault /\
           exists w2,
             convert_tif_to_jpg P (input_path_of P file) (output_path_of P file)
               (2800, 2800) staged = (inr false, w2) /\
             resp = (ErrorJson "Conversion failed", 500)) \/
          (write_fault P w (input_path_of P file) = NoFault /\
           exists jpeg,
             convert_tif_to_jpg P (input_path_of P file) (output_path_of P file)
               (2800, 2800) staged
             = (inr true, write_file (output_path_of P file) jpeg staged) /\
             ((MAX_OUTPUT_FILE_SIZE < Z.of_nat (length jpeg) /\
               resp = (ErrorJson
                         ("Output file size ("
                          +:+ PyFloat.format_1f (PyFloat.megabytes (Z.of_nat (length jpeg)))
                          +:+ "MB) exceeds limit of 10.0MB"), 400)) \/
              (Z.of_nat (length jpeg) <= MAX_OUTPUT_FILE_SIZE /\
               send_fault P
                 (removed (input_path_of P file)
                    (write_file (output_path_of P file) jpeg staged))
                 (output_path_of P file) = true /\
               resp = (ErrorJson "Internal server error", 500)) \/
              (Z.of_nat (length jpeg) <= MAX_OUTPUT_FILE_SIZE /\
               send_fault P
                 (removed (input_path_of P file)
                    (write_file (output_path_of P file) jpeg staged))
                 (output_path_of P file) = false /\
               resp = (JpegFile jpeg "image/jpeg" (output_filename_of P file), 200)))))))).
Proof.
  destruct (md_getlist "file" request_files) as [|file rest] eqn:Hlist.
  { exists (ErrorJson "No file provided", 400), w. split; [|left; auto].
    unfold convert_image. apply md_contains_getlist in Hlist. now rewrite Hlist. }
  assert (head (md_getlist "file" request_files) = Some file) as Hhead
    by now rewrite Hlist.
  destruct (String.eqb_spec (filename file) "") as [Hname|Hname].
  { exists (ErrorJson "No file selected", 400), w. split; [|right; exists file; auto].
    rewrite (convert_image_with_file P _ _ w Hhead).
    apply String.eqb_eq in Hname. now rewrite Hname. }
  destruct (allowed_file (filename file)) eqn:Hext.
  2:{ eexists _, w. split; [|right; exists file; split; [reflexivity|]; right; left; eauto].
      rewrite (convert_image_with_file P _ _ w Hhead).
      apply String.eqb_neq in Hname. now rewrite Hname, Hext. }
  destruct (Z.le_gt_cases (stream_length file) MAX_INPUT_FILE_SIZE) as [Hsize|Hsize].
  2:{ eexists _, w.
      split; [|right; exists file; split; [reflexivity|]; right; right; left; eauto].
      rewrite (convert_image_with_file P _ _ w Hhead).
      apply String.eqb_neq in Hname. apply Z.leb_gt in Hsize.
      now rewrite Hname, Hext, Hsize. }
  rewrite (convert_image_validated P _ _ w Hhead Hname Hext Hsize).
  destruct (convert_image_try_run P (rewound file) w) as (resp & w' & -> & Hrun).
  exists resp, w'. split; [reflexivity|]. right. exists file. split; [reflexivity|].
  do 3 right. repeat (split; [assumption|]). cbv zeta.
  inversion Hrun as [residue Hs|residue Hs Hc|jpeg Hs Hc Hn|jpeg Hs Hc Hn Hf|jpeg Hs Hc Hn Hf];
    subst.
  - left. exists residue. split; [exact Hs|reflexivity].
  - right. left. split; [exact Hs|]. eexists. split; [exact Hc|reflexivity].
  - right. right. split; [exact Hs|]. exists jpeg. split; [exact Hc|].
    left. split; [exact Hn|]. now rewrite size_message_of_limit.
  - right. right. split; [exact Hs|]. exists jpeg. split; [exact Hc|].
    right. left. repeat split; [exact Hn|exact Hf].
  - right. right. split; [exact Hs|]. exists jpeg. split; [exact Hc|].
    right. right. repeat split; [exact Hn|exact Hf].
Qed.

End SingleFileResponses.

(** ** Runs of the batch loop *)

Section Batch.

Context (P : Platform).

Lemma in_world_run {A} (m : M A) (w : world) (r : batch_response) :
  in_world m (w, r) = (fst (m w), (snd (m w), r)).
Proof. unfold in_world. cbn [fst snd]. now destruct (m w). Qed.

Lemma lookup_staged_after_discard (file : FileStorage) (w : world) (data jpeg : list Byte.byte) :
  files (removed (output_path_of P file)
           (write_file (output_path_of P file) jpeg
              (write_file (input_path_of P file) data w))) !! input_path_of P file
  = Some data.
Proof.
  pose proof (paths_differ P file) as Hne. cbn [removed write_file files].
  rewrite lookup_delete_ne, lookup_insert_ne by congruence. apply lookup_insert_eq.
Qed.

(** Every run of the loop body returns, in one of the seven ways. *)
Lemma batch_file_run (file : FileStorage) (w : world) (r : batch_response) :
  exists w' r', batch_file P file (w, r) = (inr tt, (w', r')) /\ batch_run P file w r w' r'.
Proof.
  unfold batch_file.
  destruct (String.eqb_spec (filename file) "") as [Hname|Hname].
  { eexists _, _. split; [reflexivity|]. now apply batch_unnamed. }
  destruct (allowed_file (filename file)) eqn:Hext; cbn [negb].
  2:{ eexists _, _. split; [reflexivity|]. now apply batch_invalid_type. }
  pose proof (check_file_size_answer file) as Ha.
  pose proof (check_file_size_rewinds file) as Hr.
  destruct (check_file_size file) as [within checked]. cbn [fst snd] in Ha, Hr. subst.
  destruct (Z.leb_spec (stream_length file) MAX_INPUT_FILE_SIZE) as [Hsize|Hsize];
    cbn [negb].
  2:{ eexists _, _. split; [reflexivity|]. now apply batch_input_too_large. }
  change (input_path_of P (mkFile (filename file) (stream file) 0))
    with (input_path_of P file).
  change (output_path_of P (mkFile (filename file) (stream file) 0))
    with (output_path_of P file).
  unfold try_except, bind at 1. rewrite in_world_run. unfold FileStorage_save.
  cbn [read fst snd stream position Z.to_nat drop].
  destruct (write_fault P w (input_path_of P file)) as [|residue] eqn:Hsave; cbn [fst snd].
  2:{ unfold bind, append_failed. cbn [fst snd].
      rewrite in_world_run, remove_if_exists_run. cbn [fst snd].
      eexists _, _. split; [reflexivity|]. now apply batch_save_failed. }
  unfold bind at 1. rewrite in_world_run.
  destruct (convert_tif_to_jpg P _ _ _ _) as [res w2] eqn:Hconv. cbn [fst snd].
  destruct (convert_effect _ _ _ _ _ _ _ Hconv) as [[-> [jpeg ->]]|[-> [residue ->]]].
  - unfold bind at 1. unfold bind at 1. rewrite in_world_run.
    rewrite (os_path_getsize_present _ _ jpeg) by apply lookup_insert_eq. cbn [fst snd].
    destruct (Z.leb_spec (Z.of_nat (length jpeg)) MAX_OUTPUT_FILE_SIZE) as [Hout|Hout].
    + unfold append_successful. cbn [fst snd].
      rewrite in_world_run, remove_if_exists_run. cbn [fst snd]. unfold cleaned.
      rewrite bool_decide_eq_true_2 by (rewrite lookup_staged_after_write; eauto).
      eexists _, _. split; [reflexivity|]. now apply batch_converted.
    + unfold bind at 1. rewrite in_world_run.
      rewrite (os_remove_present _ _ jpeg) by apply lookup_insert_eq. cbn [fst snd].
      unfold append_failed. cbn [fst snd].
      rewrite in_world_run, remove_if_exists_run. cbn [fst snd]. unfold cleaned.
      rewrite bool_decide_eq_true_2 by (rewrite lookup_staged_after_discard; eauto).
      eexists _, _. split; [reflexivity|]. now apply batch_output_too_large.
  - unfold bind at 1. unfold append_failed. cbn [fst snd].
    rewrite in_world_run, remove_if_exists_run. cbn [fst snd]. unfold cleaned.
    rewrite bool_decide_eq_true_2 by (rewrite lookup_staged_after_output; eauto).
    eexists _, _. split; [reflexivity|]. now apply batch_conversion_failed.
Qed.

End Batch.

(** ** The whole batch *)

Section BatchLoop.

Context (P : Platform).

(** The loop never stops early: it runs the body on every file. *)
Lemma for_each_batch_runs (files : list FileStorage) (w : world) (r : batch_response) :
  exists w' r',
    for_each (batch_file P) files (w, r) = (inr tt, (w', r')) /\
    batch_runs P files w r w' r'.
Proof.
  revert w r. induction files as [|file rest IH]; intros w r.
  - exists w, r. split; [reflexivity|constructor].
  - destruct (batch_file_run P file w r) as (w1 & r1 & Hbody & Hrun).
    destruct (IH w1 r1) as (w2 & r2 & Hloop & Hruns).
    exists w2, r2. split; [|econstructor; eassumption].
    cbn [for_each]. unfold bind. now rewrite Hbody.
Qed.

(** One run of the body appends exactly one outcome, under the name of its
    file. *)
Lemma batch_run_outcome (file : FileStorage) (w w' : world) (r r' : batch_response) :
  batch_run P file w r w' r' ->
  exists o, r' = record r o /\ outcome_name o = reported_name file.
Proof.
  unfold reported_name.
  destruct 1 as [Hname|Hname ?|Hname ? ?|? Hname ? ? ?|? Hname ? ? ? ?
                 |? Hname ? ? ? ? ?|? Hname ? ? ? ? ?];
    try (apply String.eqb_neq in Hname; rewrite Hname).
  - rewrite Hname. now exists (inr (mkFailure "Unnamed" "File has no name")).
  - now eexists (inr (mkFailure _ _)).
  - now eexists (inr (mkFailure _ _)).
  - now eexists (inr (mkFailure _ _)).
  - now eexists (inr (mkFailure _ _)).
  - now eexists (inr (mkFailure _ _)).
  - now eexists (inl (mkSuccess _ _ _)).
Qed.

(** The loop appends the outcomes of its files, in the order of the files. *)
Lemma batch_runs_outcomes (files : list FileStorage) (w w' : world) (r r' : batch_response) :
  batch_runs P files w r w' r' ->
  exists os : list outcome,
    Forall2 (fun file o => outcome_name o = reported_name file) files os /\
    successful_conversions r' = (successful_conversions r ++ successes_of os)%list /\
    failed_conversions r' = (failed_conversions r ++ failures_of os)%list.
Proof.
  induction 1 as [w r|file rest w r w1 r1 w2 r2 Hrun Hruns IH].
  - exists []. rewrite !app_nil_r. auto.
  - destruct IH as (os & Hall & Hs & Hf).
    destruct (batch_run_outcome _ _ _ _ _ Hrun) as (o & -> & Hname).
    exists (o :: os). split; [constructor; assumption|].
    rewrite Hs, Hf. destruct o; cbn; rewrite <- ?app_assoc; auto.
Qed.

Lemma batch_convert_images_empty (request_files : MultiDict) (w : world) :
  md_getlist "files[]" request_files = [] ->
  batch_convert_images P request_files w = (inr (ErrorJson "No files provided", 400), w).
Proof.
  intros H. unfold batch_convert_images.
  apply md_contains_getlist in H. now rewrite H.
Qed.

Lemma batch_convert_images_too_many (request_files : MultiDict) (w : world) :
  (150 < length (md_getlist "files[]" request_files))%nat ->
  batch_convert_images P request_files w
  = (inr (ErrorJson "Maximum 150 files allowed per batch", 400), w).
Proof.
  intros H. unfold batch_convert_images.
  destruct (md_contains "files[]" request_files) eqn:E.
  2:{ apply md_contains_getlist in E. rewrite E in H. cbn in H. lia. }
  cbn [negb].
  destruct (md_getlist "files[]" request_files) as [|file rest] eqn:El;
    [cbn in H; lia|].
  rewrite bool_decide_eq_false_2 by discriminate.
  destruct (Z.eqb_spec (Z.of_nat (length (file :: rest))) 0) as [E0|_];
    [cbn [length] in E0; lia|].
  cbn [orb].
  destruct (Z.gtb_spec (Z.of_nat (length (file :: rest))) 150) as [_|E1];
    [reflexivity|lia].
Qed.

(** A batch of one to 150 files runs the loop over all of them. *)
Lemma batch_convert_images_loop (request_files : MultiDict) (w : world) :
  md_getlist "files[]" request_files <> [] ->
  (length (md_getlist "files[]" request_files) <= 150)%nat ->
  exists w' r',
    batch_convert_images P request_files w
    = (inr (BatchJson r',
            if bool_decide (successful_conversions r' = []) then 400 else 200), w') /\
    batch_runs P (md_getlist "files[]" request_files) w (mkBatch [] []) w' r'.
Proof.
  intros Hne Hlen. unfold batch_convert_images.
  destruct (md_contains "files[]" request_files) eqn:E.
  2:{ apply md_contains_getlist in E. contradiction. }
  cbn [negb]. rewrite bool_decide_eq_false_2 by assumption.
  destruct (Z.eqb_spec (Z.of_nat (length (md_getlist "files[]" request_files))) 0)
    as [E0|_].
  { destruct (md_getlist "files[]" request_files); [contradiction|cbn [length] in E0; lia]. }
  cbn [orb].
  destruct (Z.gtb_spec (Z.of_nat (length (md_getlist "files[]" request_files))) 150)
    as [E1|_]; [lia|].
  destruct (for_each_batch_runs (md_getlist "files[]" request_files) w (mkBatch [] []))
    as (w' & r' & Hloop & Hruns).
  exists w', r'. rewrite Hloop. split; [reflexivity|assumption].
Qed.

End BatchLoop.

(** ** C3, C5 and C10 *)

Section BatchResponses.

Context (P : Platform).

(** C3: [POST /batch-convert] always answers, in one of three ways.  With
    no file it answers 400 with a no-files error, with more than 150 files
    it answers 400 with [Maximum 150 files allowed per batch], and in both
    cases no file is processed (the world is untouched).  Otherwise the loop
    runs over every file, each file adds one entry to the response, and the
    status is 200 exactly when there is at least one success entry and 400
    exactly when there is none. *)
Theorem batch_convert_images_responses (request_files : MultiDict) (w : world) :
  exists resp w',
    batch_convert_images P request_files w = (inr resp, w') /\
    ((md_getlist "files[]" request_files = [] /\
      resp = (ErrorJson "No files provided", 400) /\ w' = w) \/
     ((150 < length (md_getlist "files[]" request_files))%nat /\
      resp = (ErrorJson "Maximum 150 files allowed per batch", 400) /\ w' = w) \/
     (md_getlist "files[]" request_files <> [] /\
      (length (md_getlist "files[]" request_files) <= 150)%nat /\
      exists r' status,
        resp = (BatchJson r', status) /\
        batch_runs P (md_getlist "files[]" request_files) w (mkBatch [] []) w' r' /\
        (length (successful_conversions r') + length (failed_conversions r')
         = length (md_getlist "files[]" request_files))%nat /\
        (status = 200 <-> successful_conversions r' <> []) /\
        (status = 400 <-> successful_conversions r' = []))).
Proof.
  destruct (md_getlist "files[]" request_files) as [|file rest] eqn:Hlist.
  { eexists _, w. split; [now apply batch_convert_images_empty|]. left. auto. }
  destruct (le_gt_dec (length (file :: rest)) 150) as [Hlen|Hlen].
  2:{ eexists _, w. split; [apply batch_convert_images_too_many; now rewrite Hlist|].
      right. left. auto. }
  destruct (batch_convert_images_loop P request_files w) as (w' & r' & Hrun & Hruns);
    [now rewrite Hlist..|].
  rewrite Hlist in Hruns.
  eexists _, w'. split; [exact Hrun|]. right. right.
  split; [discriminate|]. split; [assumption|].
  eexists r', _. split; [reflexivity|]. split; [assumption|].
  destruct (batch_runs_outcomes P _ _ _ _ _ Hruns) as (os & Hall & Hs & Hf).
  cbn [successful_conversions failed_conversions app] in Hs, Hf.
  split.
  - rewrite Hs, Hf. apply Forall2_length in Hall. rewrite Hall.
    unfold successes_of, failures_of. clear.
    induction os as [|[s|f] os IH]; cbn in *; lia.
  - destruct (bool_decide_reflect (successful_conversions r' = [])) as [E|E];
      split; split; intros; congruence || lia.
Qed.

(** C5: for a batch of one to 150 files the handler answers with a
    response built from one outcome per file: the outcomes are as many as
    the files and in their order, each carries the name of its file, the
    success entries are exactly the successes among them and the failure
    entries exactly the failures, in that order.  Nothing a file does, not
    even a fault of the disk, keeps the later files from being processed. *)
Theorem batch_one_outcome_per_file (request_files : MultiDict) (w : world) :
  md_getlist "files[]" request_files <> [] ->
  (length (md_getlist "files[]" request_files) <= 150)%nat ->
  exists r' status w' (outcomes : list outcome),
    batch_convert_images P request_files w = (inr (BatchJson r', status), w') /\
    batch_runs P (md_getlist "files[]" request_files) w (mkBatch [] []) w' r' /\
    length outcomes = length (md_getlist "files[]" request_files) /\
    Forall2 (fun file o => outcome_name o = reported_name file)
      (md_getlist "files[]" request_files) outcomes /\
    successful_conversions r' = successes_of outcomes /\
    failed_conversions r' = failures_of outcomes.
Proof.
  intros Hne Hlen.
  destruct (batch_convert_images_loop P request_files w Hne Hlen)
    as (w' & r' & Hrun & Hruns).
  destruct (batch_runs_outcomes P _ _ _ _ _ Hruns) as (os & Hall & Hs & Hf).
  exists r', (if bool_decide (successful_conversions r' = []) then 400 else 200), w', os.
  repeat split; try assumption.
  symmetry. now apply Forall2_length in Hall.
Qed.

(** C10: in the batch loop an upload whose name is empty is recorded as the
    failure [Unnamed] / [File has no name]; the world, and so its files and
    its trace of writes and deletes, is left as it was, and the loop goes on
    with the remaining files. *)
Theorem batch_unnamed_file (file : FileStorage) (rest : list FileStorage)
    (w : world) (r : batch_response) :
  filename file = "" ->
  batch_file P file (w, r)
  = (inr tt, (w, mkBatch (successful_conversions r)
                   (failed_conversions r ++ [mkFailure "Unnamed" "File has no name"]))) /\
  for_each (batch_file P) (file :: rest) (w, r)
  = for_each (batch_file P) rest
      (w, mkBatch (successful_conversions r)
            (failed_conversions r ++ [mkFailure "Unnamed" "File has no name"])).
Proof.
  intros Hname.
  assert (batch_file P file (w, r)
          = (inr tt, (w, mkBatch (successful_conversions r)
                           (failed_conversions r ++ [mkFailure "Unnamed" "File has no name"]))))
    as Hbody.
  { unfold batch_file. apply String.eqb_eq in Hname. now rewrite Hname. }
  split; [exact Hbody|].
  cbn [for_each]. unfold bind. now rewrite Hbody.
Qed.

End BatchResponses.

(** ** C2 and C4 *)

Ltac show_trace :=
  cbn [removed write_file leave trace cleaned];
  rewrite <- ?app_assoc; cbn [app]; reflexivity.

Section Cleanup.

Context (P : Platform).

Lemma cleaned_leave_cleaned_up (path : string) (residue : option (list Byte.byte)) (w : world) :
  cleaned_up path w (cleaned path (leave path residue w)).
Proof.
  split; [apply cleaned_absent|]. unfold cleaned.
  destruct (bool_decide _); destruct residue as [d|].
  - exists [EvWrite path; EvRemove path]. split; [show_trace|].
    split; [reflexivity|]. cbn. apply NoDup_singleton.
  - exists [EvRemove path]. split; [show_trace|].
    split; [reflexivity|]. cbn. apply NoDup_singleton.
  - exists [EvWrite path]. split; [show_trace|].
    split; [reflexivity|]. cbn. apply NoDup_nil_2.
  - exists []. split; [now rewrite app_nil_r|]. split; [reflexivity|apply NoDup_nil_2].
Qed.

Lemma NoDup_pair (a b : string) : a <> b -> NoDup [a; b].
Proof.
  intros H. apply NoDup_cons. split; [|apply NoDup_singleton].
  rewrite list_elem_of_singleton. exact H.
Qed.

(** Each way the single-file [try] ends leaves the file system clean. *)
Lemma try_run_cleaned_up (file : FileStorage) (w : world) (resp : response) (w' : world) :
  try_run P file w resp w' -> cleaned_up (input_path_of P file) w w'.
Proof.
  pose proof (paths_differ P file) as Hne.
  destruct 1 as [residue Hs|residue Hs Hc|jpeg Hs Hc Hn|jpeg Hs Hc Hn Hf|jpeg Hs Hc Hn Hf].
  - apply cleaned_leave_cleaned_up.
  - split; [apply lookup_delete_eq|]. destruct residue as [d|].
    + eexists [_; _; _]. split; [show_trace|].
      split; [reflexivity|apply NoDup_singleton].
    + eexists [_; _]. split; [show_trace|].
      split; [reflexivity|apply NoDup_singleton].
  - split.
    + cbn [removed files]. rewrite lookup_delete_ne by congruence. apply lookup_delete_eq.
    + eexists [_; _; _; _]. split; [show_trace|].
      split; [reflexivity|]. cbn. now apply NoDup_pair.
  - split; [apply lookup_delete_eq|].
    eexists [_; _; _]. split; [show_trace|].
    split; [reflexivity|apply NoDup_singleton].
  - split; [apply lookup_delete_eq|].
    eexists [_; _; _]. split; [show_trace|].
    split; [reflexivity|apply NoDup_singleton].
Qed.

(** Each way the batch loop body ends for a validated upload leaves the
    file system clean. *)
Lemma batch_run_cleaned_up (file : FileStorage) (w w' : world) (r r' : batch_response) :
  filename file <> "" -> allowed_file (filename file) = true ->
  stream_length file <= MAX_INPUT_FILE_SIZE ->
  batch_run P file w r w' r' -> cleaned_up (input_path_of P file) w w'.
Proof.
  intros Hname Hext Hsize. pose proof (paths_differ P file) as Hne.
  destruct 1 as [?|? ?|? ? ?|residue ? ? ? Hs|residue ? ? ? Hs Hc
                 |jpeg ? ? ? Hs Hc Hn|jpeg ? ? ? Hs Hc Hn];
    try congruence; try lia.
  - apply cleaned_leave_cleaned_up.
  - split; [apply lookup_delete_eq|]. destruct residue as [d|].
    + eexists [_; _; _]. split; [show_trace|].
      split; [reflexivity|apply NoDup_singleton].
    + eexists [_; _]. split; [show_trace|].
      split; [reflexivity|apply NoDup_singleton].
  - split; [apply lookup_delete_eq|].
    eexists [_; _; _; _]. split; [show_trace|].
    split; [reflexivity|]. cbn. apply NoDup_pair. congruence.
  - split; [apply lookup_delete_eq|].
    eexists [_; _; _]. split; [show_trace|].
    split; [reflexivity|apply NoDup_singleton].
Qed.

(** C2: once an upload has passed validation, so that the handler reaches
    the save step, the run returns with the staged input gone from the file
    system, whatever happened in between (success, a recorded failure or a
    caught exception); none of its deletes raised and none deleted a path a
    second time.  This holds for [POST /convert] and for the body of the
    batch loop alike. *)
Theorem staged_input_never_outlives_run
    (request_files : MultiDict) (file : FileStorage) (w : world) (r : batch_response) :
  head (md_getlist "file" request_files) = Some file ->
  filename file <> "" -> allowed_file (filename file) = true ->
  stream_length file <= MAX_INPUT_FILE_SIZE ->
  (exists resp w',
     convert_image P request_files w = (inr resp, w') /\
     files w' !! input_path_of P file = None /\
     exists events,
       trace w' = (trace w ++ events)%list /\
       failed_removals events = [] /\ NoDup (removals events)) /\
  (exists r' w',
     batch_file P file (w, r) = (inr tt, (w', r')) /\
     files w' !! input_path_of P file = None /\
     exists events,
       trace w' = (trace w ++ events)%list /\
       failed_removals events = [] /\ NoDup (removals events)).
Proof.
  intros Hhead Hname Hext Hsize. split.
  - rewrite (convert_image_validated P _ _ w Hhead Hname Hext Hsize).
    destruct (convert_image_try_run P (rewound file) w) as (resp & w' & -> & Hrun).
    exists resp, w'. split; [reflexivity|].
    exact (try_run_cleaned_up _ _ _ _ Hrun).
  - destruct (batch_file_run P file w r) as (w' & r' & -> & Hrun).
    exists r', w'. split; [reflexivity|].
    exact (batch_run_cleaned_up _ _ _ _ _ Hname Hext Hsize Hrun).
Qed.

End Cleanup.

Lemma write_file_inj (path : string) (a b : list Byte.byte) (w : world) :
  write_file path a w = write_file path b w -> a = b.
Proof.
  intros H. apply (f_equal (fun v => files v !! path)) in H.
  cbn [write_file files] in H. rewrite !lookup_insert_eq in H. congruence.
Qed.

Section OversizedOutput.

Context (P : Platform).

Lemma input_path_of_rewound (file : FileStorage) :
  input_path_of P (rewound file) = input_path_of P file.
Proof. reflexivity. Qed.

Lemma output_path_of_rewound (file : FileStorage) :
  output_path_of P (rewound file) = output_path_of P file.
Proof. reflexivity. Qed.

Lemma read_rewound_file (file : FileStorage) : fst (read (rewound file)) = stream file.
Proof. reflexivity. Qed.

(** Two runs of the converter from the same world wrote the same bytes. *)
Ltac same_output :=
  match goal with
  | H1 : convert_tif_to_jpg ?Q ?i ?o ?m ?v = (_, write_file ?o ?a ?v),
    H2 : convert_tif_to_jpg ?Q ?i ?o ?m ?v = (_, write_file ?o ?b ?v) |- _ =>
      let E := fresh in
      assert (a = b) as E by (apply (write_file_inj o a b v); congruence);
      try subst a; try subst b
  end.

Ltac unrewind :=
  rewrite ?input_path_of_rewound, ?output_path_of_rewound, ?read_rewound_file in *.

(** C4: when the upload is staged, the converter succeeds and the file it
    wrote at the output path is larger than 10 MiB, both pipelines delete
    that file (it is absent when they return) and report a failure whose
    message states the measured size in MB with one decimal:
    [POST /convert] answers 400 with it, the batch loop records it as the
    reason of a failure entry. *)
Theorem oversized_output_is_discarded
    (request_files : MultiDict) (file : FileStorage) (w w2 : world)
    (r : batch_response) (jpeg : list Byte.byte) :
  head (md_getlist "file" request_files) = Some file ->
  filename file <> "" -> allowed_file (filename file) = true ->
  stream_length file <= MAX_INPUT_FILE_SIZE ->
  write_fault P w (input_path_of P file) = NoFault ->
  convert_tif_to_jpg P (input_path_of P file) (output_path_of P file) (2800, 2800)
    (write_file (input_path_of P file) (stream file) w) = (inr true, w2) ->
  files w2 !! output_path_of P file = Some jpeg ->
  10 * 1024 * 1024 < Z.of_nat (length jpeg) ->
  (exists w',
     convert_image P request_files w
     = (inr (ErrorJson
               ("Output file size ("
                +:+ PyFloat.format_1f (PyFloat.megabytes (Z.of_nat (length jpeg)))
                +:+ "MB) exceeds limit of 10.0MB"), 400), w') /\
     files w' !! output_path_of P file = None) /\
  (exists w',
     batch_file P file (w, r)
     = (inr tt,
        (w', mkBatch (successful_conversions r)
               (failed_conversions r
                ++ [mkFailure (filename file)
                      ("Output file size ("
                       +:+ PyFloat.format_1f (PyFloat.megabytes (Z.of_nat (length jpeg)))
                       +:+ "MB) exceeds limit")]))) /\
     files w' !! output_path_of P file = None).
Proof.
  intros Hhead Hname Hext Hsize Hsave Hconv Hout Hbig.
  pose proof (paths_differ P file) as Hne.
  assert (w2 = write_file (output_path_of P file) jpeg
                 (write_file (input_path_of P file) (stream file) w)) as ->.
  { destruct (convert_effect _ _ _ _ _ _ _ Hconv) as [[_ [j ->]]|[[=] _]].
    cbn [write_file files] in Hout. rewrite lookup_insert_eq in Hout.
    now injection Hout as ->. }
  change (10 * 1024 * 1024) with MAX_OUTPUT_FILE_SIZE in Hbig.
  split.
  - rewrite (convert_image_validated P _ _ w Hhead Hname Hext Hsize).
    destruct (convert_image_try_run P (rewound file) w) as (resp & w' & -> & Hrun).
    exists w'. inversion Hrun; subst; unrewind; try congruence; same_output; try lia.
    rewrite size_message_of_limit. split; [reflexivity|]. apply lookup_delete_eq.
  - destruct (batch_file_run P file w r) as (w' & r' & -> & Hrun).
    exists w'. inversion Hrun; subst; try congruence; try lia; same_output; try lia.
    split; [reflexivity|]. cbn [removed files].
    rewrite lookup_delete_ne by congruence. apply lookup_delete_eq.
Qed.

End OversizedOutput.

(** ** Runs on the concrete platform *)

Lemma huge_length : Z.of_nat (length Demo.huge) = 10485761.
Proof. unfold Demo.huge. rewrite repeat_length, N_nat_Z. reflexivity. Qed.

(** C1, as stated, fails: an upload that is no image makes the converter
    return [False] without any exception, and [POST /convert] answers it
    with status 500 and the error [Conversion failed], neither with status
    400 nor with the generic message. *)
Lemma conversion_failure_is_answered_500 :
  convert_tif_to_jpg Demo.plain "uploads/b.tif" "converted/b.jpg" (2800, 2800)
    (write_file "uploads/b.tif" (stream Demo.broken_tiff) Demo.empty_world)
  = (inr false, write_file "uploads/b.tif" (stream Demo.broken_tiff) Demo.empty_world) /\
  fst (convert_image Demo.plain [("file", Demo.broken_tiff)] Demo.empty_world)
  = inr (ErrorJson "Conversion failed", 500) /\
  (forall msg,
     fst (convert_image Demo.plain [("file", Demo.broken_tiff)] Demo.empty_world)
     <> inr (ErrorJson msg, 400)) /\
  fst (convert_image Demo.plain [("file", Demo.broken_tiff)] Demo.empty_world)
  <> inr (ErrorJson "Internal server error", 500).
Proof.
  assert (fst (convert_image Demo.plain [("file", Demo.broken_tiff)] Demo.empty_world)
          = inr (ErrorJson "Conversion failed", 500)) as E by (vm_compute; reflexivity).
  split; [vm_compute; reflexivity|]. split; [exact E|].
  rewrite E. split; [intros msg|]; discriminate.
Qed.

Lemma staged_input_never_outlives_run_witness :
  head (md_getlist "file" [("file", Demo.small_tiff)]) = Some Demo.small_tiff /\
  filename Demo.small_tiff <> "" /\
  allowed_file (filename Demo.small_tiff) = true /\
  stream_length Demo.small_tiff <= MAX_INPUT_FILE_SIZE /\
  (exists resp w',
     convert_image Demo.plain [("file", Demo.small_tiff)] Demo.empty_world = (inr resp, w') /\
     files w' !! input_path_of Demo.plain Demo.small_tiff = None) /\
  (exists r' w',
     batch_file Demo.plain Demo.small_tiff (Demo.empty_world, mkBatch [] [])
     = (inr tt, (w', r')) /\
     files w' !! input_path_of Demo.plain Demo.small_tiff = None).
Proof.
  assert (head (md_getlist "file" [("file", Demo.small_tiff)]) = Some Demo.small_tiff)
    as H1 by reflexivity.
  assert (filename Demo.small_tiff <> "") as H2 by discriminate.
  assert (allowed_file (filename Demo.small_tiff) = true) as H3 by (vm_compute; reflexivity).
  assert (stream_length Demo.small_tiff <= MAX_INPUT_FILE_SIZE) as H4
    by (vm_compute; discriminate).
  destruct (staged_input_never_outlives_run Demo.plain _ _ Demo.empty_world
              (mkBatch [] []) H1 H2 H3 H4)
    as [(resp & w' & Hrun & Hgone & _) (r' & w'' & Hbody & Hgone' & _)].
  repeat split; try assumption; eauto.
Defined.

Lemma oversized_output_is_discarded_witness :
  head (md_getlist "file" [("file", Demo.small_tiff)]) = Some Demo.small_tiff /\
  filename Demo.small_tiff <> "" /\
  allowed_file (filename Demo.small_tiff) = true /\
  stream_length Demo.small_tiff <= MAX_INPUT_FILE_SIZE /\
  convert_tif_to_jpg (Demo.platform (fun _ => Encoded Demo.huge))
    "uploads/a.tiff" "converted/a.jpg" (2800, 2800)
    (write_file "uploads/a.tiff" (stream Demo.small_tiff) Demo.empty_world)
  = (inr true,
     write_file "converted/a.jpg" Demo.huge
       (write_file "uploads/a.tiff" (stream Demo.small_tiff) Demo.empty_world)) /\
  10 * 1024 * 1024 < Z.of_nat (length Demo.huge) /\
  exists w',
    convert_image (Demo.platform (fun _ => Encoded Demo.huge))
      [("file", Demo.small_tiff)] Demo.empty_world
    = (inr (ErrorJson "Output file size (10.0MB) exceeds limit of 10.0MB", 400), w') /\
    files w' !! "converted/a.jpg" = None.
Proof.
  pose proof huge_length as Hlen. revert Hlen. generalize Demo.huge. intros big Hlen.
  assert (head (md_getlist "file" [("file", Demo.small_tiff)]) = Some Demo.small_tiff)
    as H1 by reflexivity.
  assert (filename Demo.small_tiff <> "") as H2 by discriminate.
  assert (allowed_file (filename Demo.small_tiff) = true) as H3 by (vm_compute; reflexivity).
  assert (stream_length Demo.small_tiff <= MAX_INPUT_FILE_SIZE) as H4
    by (vm_compute; discriminate).
  assert (convert_tif_to_jpg (Demo.platform (fun _ => Encoded big))
            "uploads/a.tiff" "converted/a.jpg" (2800, 2800)
            (write_file "uploads/a.tiff" (stream Demo.small_tiff) Demo.empty_world)
          = (inr true,
             write_file "converted/a.jpg" big
               (write_file "uploads/a.tiff" (stream Demo.small_tiff) Demo.empty_world)))
    as H5 by (vm_compute; reflexivity).
  assert (10 * 1024 * 1024 < Z.of_nat (length big)) as H6 by (rewrite Hlen; reflexivity).
  repeat (split; [assumption|]).
  destruct (oversized_output_is_discarded (Demo.platform (fun _ => Encoded big))
              [("file", Demo.small_tiff)] Demo.small_tiff Demo.empty_world _
              (mkBatch [] []) big H1 H2 H3 H4 eq_refl H5
              (lookup_insert_eq _ _ _) H6)
    as [(w' & Hrun & Hgone) _].
  exists w'. rewrite Hlen in Hrun. split; [exact Hrun|exact Hgone].
Defined.

Lemma batch_one_outcome_per_file_witness :
  md_getlist "files[]" [("files[]", Demo.small_tiff); ("files[]", Demo.text_file)] <> [] /\
  (length (md_getlist "files[]"
             [("files[]", Demo.small_tiff); ("files[]", Demo.text_file)]) <= 150)%nat /\
  exists r' status w' (outcomes : list outcome),
    batch_convert_images Demo.plain
      [("files[]", Demo.small_tiff); ("files[]", Demo.text_file)] Demo.empty_world
    = (inr (BatchJson r', status), w') /\
    length outcomes = 2%nat /\
    successful_conversions r' = successes_of outcomes /\
    failed_conversions r' = failures_of outcomes.
Proof.
  assert (md_getlist "files[]" [("files[]", Demo.small_tiff); ("files[]", Demo.text_file)]
          <> []) as H1 by discriminate.
  assert (length (md_getlist "files[]"
                    [("files[]", Demo.small_tiff); ("files[]", Demo.text_file)]) <= 150)%nat
    as H2 by (cbn; lia).
  destruct (batch_one_outcome_per_file Demo.plain _ Demo.empty_world H1 H2)
    as (r' & status & w' & outcomes & Hrun & _ & Hlen & _ & Hs & Hf).
  split; [exact H1|]. split; [exact H2|].
  exists r', status, w', outcomes. repeat split; assumption.
Defined.

Lemma convert_bounds_dimensions_witness :
  files (write_file "uploads/wide.tif" Demo.wide_bytes Demo.empty_world)
    !! "uploads/wide.tif" = Some Demo.wide_bytes /\
  image_open Demo.plain Demo.wide_bytes = Some Demo.wide_image /\
  0 < width Demo.wide_image < 2 ^ 31 /\ 0 < height Demo.wide_image < 2 ^ 31 /\
  exists img',
    bounded Demo.plain Demo.wide_image (2800, 2800)
      (write_file "uploads/wide.tif" Demo.wide_bytes Demo.empty_world)
    = (inr img', write_file "uploads/wide.tif" Demo.wide_bytes Demo.empty_world) /\
    width img' = 2800 /\ height img' = 1400.
Proof.
  assert (files (write_file "uploads/wide.tif" Demo.wide_bytes Demo.empty_world)
            !! "uploads/wide.tif" = Some Demo.wide_bytes) as H1 by (vm_compute; reflexivity).
  assert (image_open Demo.plain Demo.wide_bytes = Some Demo.wide_image) as H2
    by (vm_compute; reflexivity).
  assert (0 < width Demo.wide_image < 2 ^ 31) as H3 by (split; reflexivity).
  assert (0 < height Demo.wide_image < 2 ^ 31) as H4 by (split; reflexivity).
  destruct (convert_bounds_dimensions Demo.plain "uploads/wide.tif" "converted/wide.jpg"
              _ _ _ H1 H2 H3 H4) as (img' & Hb & _ & Hlarge & _).
  repeat (split; [assumption|]).
  exists img'. split; [exact Hb|].
  destruct (Hlarge ltac:(reflexivity)) as (Hmax & Hmin & Hasp & Hx & Hy & _).
  change (width Demo.wide_image) with 5000 in *.
  change (height Demo.wide_image) with 2500 in *. lia.
Defined.

Lemma batch_unnamed_file_witness :
  filename Demo.unnamed = "" /\
  batch_file Demo.plain Demo.unnamed (Demo.empty_world, mkBatch [] [])
  = (inr tt, (Demo.empty_world, mkBatch [] [mkFailure "Unnamed" "File has no name"])) /\
  for_each (batch_file Demo.plain) [Demo.unnamed; Demo.small_tiff]
    (Demo.empty_world, mkBatch [] [])
  = for_each (batch_file Demo.plain) [Demo.small_tiff]
      (Demo.empty_world, mkBatch [] [mkFailure "Unnamed" "File has no name"]).
Proof.
  assert (filename Demo.unnamed = "") as H1 by reflexivity.
  split; [exact H1|].
  exact (batch_unnamed_file Demo.plain Demo.unnamed [Demo.small_tiff]
           Demo.empty_world (mkBatch [] []) H1).
Defined.

(** The scenarios of the specification, run on the concrete platform: a
    100 by 100 upload named [a.tiff] is answered 200 with a JPEG attachment
    named [a.jpg]; a convertible upload and a text file in one batch give
    one success, one failure and status 200; a batch in which every file
    fails is answered 400. *)
Example scenario_single_small :
  fst (convert_image Demo.plain [("file", Demo.small_tiff)] Demo.empty_world)
  = inr (JpegFile [Byte.x2a] "image/jpeg" "a.jpg", 200).
Proof. vm_compute. reflexivity. Qed.

Example scenario_mixed_batch :
  fst (batch_convert_images Demo.plain
         [("files[]", Demo.small_tiff); ("files[]", Demo.text_file)] Demo.empty_world)
  = inr (BatchJson
           (mkBatch [mkSuccess "a.tiff" "converted/a.jpg" (0 # 100)%Q]
                    [mkFailure "notes.txt" "Invalid file type"]), 200).
Proof. vm_compute. reflexivity. Qed.

Example scenario_all_failed :
  fst (batch_convert_images Demo.plain
         [("files[]", Demo.broken_tiff); ("files[]", Demo.unnamed)] Demo.empty_world)
  = inr (BatchJson
           (mkBatch []
              [mkFailure "b.tif" "Conversion failed";
               mkFailure "Unnamed" "File has no name"]), 400).
Proof. vm_compute. reflexivity. Qed.

(** Sizes for which the two candidates of [round_aspect] have the same key
    in exact arithmetic, or the proportional side lies half way between two
    integers: the doubles decide. *)
Example scenario_thumbnail_sizes :
  PIL.thumbnail_size 4900 6 (2800, 2800) = inr (Some (2800, 4)) /\
  PIL.thumbnail_size 3 5600 (2800, 2800) = inr (Some (2, 2800)) /\
  PIL.thumbnail_size 2801 5600 (2800, 2800) = inr (Some (1401, 2800)) /\
  PIL.thumbnail_size 5000 2500 (2800, 2800) = inr (Some (2800, 1400)).
Proof. repeat split; vm_compute; reflexivity. Qed.

(** A bound that is not positive: the resize is refused and the converter
    returns [False], leaving the world as it was. *)
Example scenario_negative_bound :
  let w := write_file "uploads/a.tiff" (stream Demo.small_tiff) Demo.empty_world in
  bounded Demo.plain (mkImage 100 100 [Byte.x2a]) (-5, -5) w = (inl ValueError, w) /\
  convert_tif_to_jpg Demo.plain "uploads/a.tiff" "converted/a.jpg" (-5, -5) w
  = (inr false, w).
Proof. split; vm_compute; reflexivity. Qed.

(** * Further properties of the validators, the converter and the handlers *)

(** ** The extension check ignores case *)

Lemma lower_char_dot (c : ascii) : PyStr.lower_char c = "."%char <-> c = "."%char.
Proof.
  destruct c as [[] [] [] [] [] [] [] []]; vm_compute;
    split; intros H; first [reflexivity | discriminate H].
Qed.

Lemma lower_char_idempotent (c : ascii) :
  PyStr.lower_char (PyStr.lower_char c) = PyStr.lower_char c.
Proof. destruct c as [[] [] [] [] [] [] [] []]; reflexivity. Qed.

Lemma lower_idempotent (s : string) : PyStr.lower (PyStr.lower s) = PyStr.lower s.
Proof.
  induction s as [|c s IH]; [reflexivity|].
  cbn [PyStr.lower]. now rewrite lower_char_idempotent, IH.
Qed.

Lemma dot_dec_lower (c : ascii) :
  (if ascii_dec "." (PyStr.lower_char c) then true else false)
  = (if ascii_dec "." c then true else false).
Proof.
  destruct (ascii_dec "." (PyStr.lower_char c)) as [E|E];
    destruct (ascii_dec "." c) as [F|F]; try reflexivity.
  - symmetry in E. apply (proj1 (lower_char_dot c)) in E. subst c. now elim F.
  - subst c. exfalso. apply E. reflexivity.
Qed.

(** Lowercasing moves no dot: it commutes with the split at the last dot. *)
Lemma rsplit_last_lower (s : string) :
  PyStr.rsplit_last "." (PyStr.lower s)
  = match PyStr.rsplit_last "." s with
    | Some (pre, suf) => Some (PyStr.lower pre, PyStr.lower suf)
    | None => None
    end.
Proof.
  induction s as [|c s IH]; [reflexivity|].
  cbn [PyStr.lower PyStr.rsplit_last]. rewrite IH.
  destruct (PyStr.rsplit_last "." s) as [[pre suf]|]; [reflexivity|].
  pose proof (dot_dec_lower c) as H.
  destruct (ascii_dec "." (PyStr.lower_char c)); destruct (ascii_dec "." c);
    try discriminate; reflexivity.
Qed.

Lemma contains_dot_lower (s : string) :
  PyStr.contains "." (PyStr.lower s) = PyStr.contains "." s.
Proof.
  induction s as [|c s IH]; [reflexivity|].
  cbn [PyStr.lower PyStr.contains]. rewrite IH.
  pose proof (dot_dec_lower c) as H.
  destruct (ascii_dec "." (PyStr.lower_char c)); destruct (ascii_dec "." c);
    try discriminate; reflexivity.
Qed.

(** X1: the extension check does not depend on the case of the name: a
    name and its lowercased form are accepted or rejected together. *)
Theorem allowed_file_ignores_case (f : string) :
  allowed_file (PyStr.lower f) = allowed_file f.
Proof.
  unfold allowed_file, PyStr.rsplit1.
  rewrite contains_dot_lower, rsplit_last_lower.
  destruct (PyStr.rsplit_last "." f) as [[pre suf]|]; [|reflexivity].
  cbn. now rewrite lower_idempotent.
Qed.

(** ** Where the handlers write *)

Section Frames.

Context (P : Platform).

(** The staged input of one upload is never the output of another. *)
Lemma input_is_no_output (f g : FileStorage) :
  input_path_of P f <> output_path_of P g.
Proof. rewrite input_path_of_eq, output_path_of_eq. discriminate. Qed.

Lemma leave_frame (path p : string) (residue : option (list Byte.byte)) (w : world) :
  p <> path -> files (leave path residue w) !! p = files w !! p.
Proof.
  intros Hp. destruct residue as [d|]; [|reflexivity].
  cbn [leave write_file files]. now rewrite lookup_insert_ne by congruence.
Qed.

Lemma cleaned_frame (path p : string) (w : world) :
  p <> path -> files (cleaned path w) !! p = files w !! p.
Proof.
  intros Hp. unfold cleaned. destruct (bool_decide _); [|reflexivity].
  cbn [removed files]. now rewrite lookup_delete_ne by congruence.
Qed.

Ltac frame :=
  cbn [removed write_file files];
  repeat first
    [ rewrite lookup_delete_ne by congruence
    | rewrite lookup_insert_ne by congruence
    | rewrite cleaned_frame by congruence
    | rewrite leave_frame by congruence ];
  cbn [removed write_file files];
  repeat first
    [ rewrite lookup_delete_ne by congruence
    | rewrite lookup_insert_ne by congruence ];
  reflexivity.

(** A run of the single-file [try] changes no path but its own two. *)
Lemma try_run_frame (file : FileStorage) (w : world) (resp : response) (w' : world)
    (p : string) :
  try_run P file w resp w' ->
  p <> input_path_of P file -> p <> output_path_of P file ->
  files w' !! p = files w !! p.
Proof. destruct 1; intros Hi Ho; frame. Qed.

(** A run of the batch loop body changes no path but its own two. *)
Lemma batch_run_frame (file : FileStorage) (w w' : world) (r r' : batch_response)
    (p : string) :
  batch_run P file w r w' r' ->
  p <> input_path_of P file -> p <> output_path_of P file ->
  files w' !! p = files w !! p.
Proof. destruct 1; intros Hi Ho; try reflexivity; frame. Qed.

End Frames.

(** An upload that passes the three checks both handlers make before they
    stage it: a name, an allowed extension, a size within the limit. *)
Definition validated (file : FileStorage) : bool :=
  negb (String.eqb (filename file) "")
  && allowed_file (filename file)
  && (stream_length file <=? MAX_INPUT_FILE_SIZE).

Lemma validated_true (file : FileStorage) :
  validated file = true <->
  filename file <> "" /\ allowed_file (filename file) = true /\
  stream_length file <= MAX_INPUT_FILE_SIZE.
Proof.
  unfold validated. rewrite !andb_true_iff, negb_true_iff, String.eqb_neq, Z.leb_le.
  tauto.
Qed.

Section MoreSingleFile.

Context (P : Platform).

(** What the converter did when it says [True]. *)
Lemma convert_true_inv (input_path output_path : string) (max_size : Z * Z)
    (w w' : world) :
  convert_tif_to_jpg P input_path output_path max_size w = (inr true, w') ->
  exists data img img' jpeg,
    files w !! input_path = Some data /\ image_open P data = Some img /\
    bounded P img max_size w = (inr img', w) /\
    jpeg_encode P img' 80 true = Encoded jpeg /\
    w' = write_file output_path jpeg w.
Proof.
  unfold convert_tif_to_jpg, try_except, bind, Image_open.
  destruct (files w !! input_path) as [data|] eqn:Hfile; [|discriminate].
  destruct (image_open P data) as [img|] eqn:Hdec; [|discriminate].
  pose proof (bounded_world P img max_size w) as Hbw.
  destruct (bounded P img max_size w) as [[e|img'] wb] eqn:Hb;
    cbn [snd] in Hbw; subst wb; [discriminate|].
  unfold Image_save.
  destruct (write_fault P w output_path); [|discriminate].
  destruct (jpeg_encode P img' 80 true) as [jpeg|] eqn:Henc; [|discriminate].
  intros [= <-]. exists data, img, img', jpeg. repeat split; assumption || reflexivity.
Qed.

(** Bounding an image does not look at the world. *)
Lemma bounded_any_world (img : Image) (max_size : Z * Z) (w1 w2 : world) :
  fst (bounded P img max_size w1) = fst (bounded P img max_size w2).
Proof.
  unfold bounded, Image_thumbnail.
  destruct (_ >? _); [|reflexivity].
  destruct (PIL.thumbnail_size _ _ _) as [e|[[x y]|]]; try reflexivity.
  destruct (_ && _); [reflexivity|]. destruct (_ || _); reflexivity.
Qed.

(** A 200 answer of [POST /convert] comes from exactly one kind of run. *)
Lemma convert_image_sent_inv (request_files : MultiDict) (w w' : world)
    (data : list Byte.byte) (mime name : string) :
  convert_image P request_files w = (inr (JpegFile data mime name, 200), w') ->
  exists file,
    head (md_getlist "file" request_files) = Some file /\
    filename file <> "" /\ allowed_file (filename file) = true /\
    stream_length file <= MAX_INPUT_FILE_SIZE /\
    write_fault P w (input_path_of P file) = NoFault /\
    convert_tif_to_jpg P (input_path_of P file) (output_path_of P file) (2800, 2800)
      (write_file (input_path_of P file) (stream file) w)
    = (inr true,
       write_file (output_path_of P file) data
         (write_file (input_path_of P file) (stream file) w)) /\
    Z.of_nat (length data) <= MAX_OUTPUT_FILE_SIZE /\
    mime = "image/jpeg" /\ name = output_filename_of P file /\
    w' = removed (input_path_of P file)
           (write_file (output_path_of P file) data
              (write_file (input_path_of P file) (stream file) w)).
Proof.
  intros Hrun.
  destruct (md_getlist "file" request_files) as [|file rest] eqn:Hlist.
  { apply md_contains_getlist in Hlist. unfold convert_image in Hrun.
    rewrite Hlist in Hrun. discriminate. }
  assert (head (md_getlist "file" request_files) = Some file) as Hhead
    by now rewrite Hlist.
  rewrite (convert_image_with_file P _ _ w Hhead) in Hrun.
  destruct (String.eqb_spec (filename file) "") as [Hname|Hname]; [discriminate|].
  destruct (allowed_file (filename file)) eqn:Hext; [|discriminate]. cbn [negb] in Hrun.
  destruct (Z.leb_spec (stream_length file) MAX_INPUT_FILE_SIZE) as [Hsize|Hsize];
    [|discriminate]. cbn [negb] in Hrun.
  destruct (convert_image_try_run P (rewound file) w) as (resp & w1 & Htry & Hcase).
  rewrite Htry in Hrun. injection Hrun as -> ->.
  exists file. split; [reflexivity|].
  inversion Hcase as [| | | |jpeg Hs Hc Hn Hf]; subst. auto 12.
Qed.

End MoreSingleFile.

Section HandlerProperties.

Context (P : Platform).

(** Two runs of the converter from the same world wrote the same bytes. *)
Ltac same_bytes :=
  match goal with
  | H1 : convert_tif_to_jpg ?Q ?i ?o ?m ?v = (_, write_file ?o ?a ?v),
    H2 : convert_tif_to_jpg ?Q ?i ?o ?m ?v = (_, write_file ?o ?b ?v) |- _ =>
      let E := fresh in
      assert (a = b) as E by (apply (write_file_inj o a b v); congruence);
      try subst a; try subst b
  end.

(** X2: whatever [POST /convert] and the batch loop body do for an upload,
    they change no file other than that upload's staged input and its
    output: every other path holds afterwards what it held before. *)
Theorem handlers_touch_only_their_paths
    (request_files : MultiDict) (file : FileStorage) (w : world)
    (r : batch_response) (p : string) :
  head (md_getlist "file" request_files) = Some file ->
  p <> input_path_of P file -> p <> output_path_of P file ->
  files (snd (convert_image P request_files w)) !! p = files w !! p /\
  files (fst (snd (batch_file P file (w, r)))) !! p = files w !! p.
Proof.
  intros Hhead Hi Ho. split.
  - rewrite (convert_image_with_file P _ _ w Hhead).
    destruct (String.eqb (filename file) ""); [reflexivity|].
    destruct (negb (allowed_file (filename file))); [reflexivity|].
    destruct (negb (stream_length file <=? MAX_INPUT_FILE_SIZE)); [reflexivity|].
    destruct (convert_image_try_run P (rewound file) w) as (resp & w' & -> & Hrun).
    exact (try_run_frame P _ _ _ _ p Hrun Hi Ho).
  - destruct (batch_file_run P file w r) as (w' & r' & -> & Hrun).
    exact (batch_run_frame P _ _ _ _ _ p Hrun Hi Ho).
Qed.

(** X3: an upload that fails one of the three checks (no name, extension
    not allowed, more than 1 GiB) is answered 400 by [POST /convert] and
    recorded as one failure by the batch loop, and neither handler touches
    the world for it: nothing is written, nothing deleted. *)
Theorem rejected_upload_touches_nothing
    (request_files : MultiDict) (file : FileStorage) (w : world) (r : batch_response) :
  head (md_getlist "file" request_files) = Some file ->
  validated file = false ->
  (exists msg, convert_image P request_files w = (inr (ErrorJson msg, 400), w)) /\
  (exists reason,
     batch_file P file (w, r)
     = (inr tt, (w, mkBatch (successful_conversions r)
                      (failed_conversions r ++ [mkFailure (reported_name file) reason])))).
Proof.
  intros Hhead Hval. unfold validated in Hval. split.
  - rewrite (convert_image_with_file P _ _ w Hhead).
    destruct (String.eqb (filename file) ""); [eexists; reflexivity|].
    destruct (allowed_file (filename file)); [|eexists; reflexivity].
    cbn [negb andb] in *. rewrite Hval. eexists; reflexivity.
  - unfold batch_file, reported_name.
    destruct (String.eqb (filename file) ""); [eexists; reflexivity|].
    destruct (allowed_file (filename file)); [|eexists; reflexivity].
    cbn [negb andb] in *.
    pose proof (check_file_size_answer file) as Ha.
    destruct (check_file_size file) as [within checked]. cbn [fst] in Ha. subst.
    rewrite Hval. eexists; reflexivity.
Qed.

(** X4: a 200 answer of [POST /convert] is the real thing.  Its body is the
    JPEG encoding, at quality 80 with optimisation, of the image decoded from
    the whole uploaded stream and bounded to 2800 pixels; it is at most
    10 MiB, has type [image/jpeg] and is named after the sanitised upload
    name with the extension replaced by [.jpg]; the same bytes are on disk at
    the output path and the staged input is gone. *)
Theorem sent_file_is_the_converted_upload
    (request_files : MultiDict) (w w' : world)
    (data : list Byte.byte) (mime name : string) :
  convert_image P request_files w = (inr (JpegFile data mime name, 200), w') ->
  exists file img img',
    head (md_getlist "file" request_files) = Some file /\
    validated file = true /\
    image_open P (stream file) = Some img /\
    fst (bounded P img (2800, 2800) w) = inr img' /\
    jpeg_encode P img' 80 true = Encoded data /\
    Z.of_nat (length data) <= 10 * 1024 * 1024 /\
    mime = "image/jpeg" /\ name = output_filename_of P file /\
    files w' !! output_path_of P file = Some data /\
    files w' !! input_path_of P file = None.
Proof.
  intros Hrun.
  destruct (convert_image_sent_inv P _ _ _ _ _ _ Hrun)
    as (file & Hhead & Hname & Hext & Hsize & Hsave & Hconv & Hout & -> & -> & ->).
  destruct (convert_true_inv P _ _ _ _ _ Hconv)
    as (bytes & img & img' & jpeg & Hfile & Hdec & Hb & Henc & Hw).
  cbn [write_file files] in Hfile. rewrite lookup_insert_eq in Hfile.
  injection Hfile as <-.
  apply write_file_inj in Hw. subst jpeg.
  exists file, img, img'. split; [assumption|].
  split; [apply validated_true; auto|]. split; [assumption|].
  split; [rewrite (bounded_any_world P img _ w (write_file (input_path_of P file)
                     (stream file) w)); now rewrite Hb|].
  split; [assumption|]. split; [exact Hout|]. split; [reflexivity|].
  split; [reflexivity|].
  split; [apply lookup_output_after_unstage|apply lookup_delete_eq].
Qed.

(** X5: the two handlers agree.  When [POST /convert] answers 200 for an
    upload, the batch loop body run on the same upload in the same world
    records a success for it, under the client's file name, with the output
    path and the size in MB of that very JPEG, and leaves the same world. *)
Theorem batch_agrees_with_single
    (request_files : MultiDict) (file : FileStorage) (w w' : world)
    (r : batch_response) (data : list Byte.byte) (mime name : string) :
  head (md_getlist "file" request_files) = Some file ->
  convert_image P request_files w = (inr (JpegFile data mime name, 200), w') ->
  batch_file P file (w, r)
  = (inr tt,
     (w', mkBatch
            (successful_conversions r
             ++ [mkSuccess (filename file) (output_path_of P file)
                   (PyFloat.round2 (PyFloat.megabytes (Z.of_nat (length data))))])
            (failed_conversions r))).
Proof.
  intros Hhead Hrun.
  destruct (convert_image_sent_inv P _ _ _ _ _ _ Hrun)
    as (file' & Hhead' & Hname & Hext & Hsize & Hsave & Hconv & Hout & -> & -> & ->).
  assert (file' = file) as -> by congruence.
  destruct (batch_file_run P file w r) as (w1 & r1 & -> & Hcase).
  inversion Hcase; subst; try congruence; try lia; same_bytes; try lia.
  reflexivity.
Qed.

End HandlerProperties.

(** ** The whole batch and the file system *)

(** A success entry that is backed by a file: at its output path, which is
    the output path of some upload, there are at most 10 MiB of bytes whose
    size in MB is the one the entry reports. *)
Definition on_disk (P : Platform) (w : world) (s : success_entry) : Prop :=
  (exists g, s_output_path s = output_path_of P g) /\
  exists data,
    files w !! s_output_path s = Some data /\
    Z.of_nat (length data) <= MAX_OUTPUT_FILE_SIZE /\
    s_output_size_mb s = PyFloat.round2 (PyFloat.megabytes (Z.of_nat (length data))).

Section BatchWorld.

Context (P : Platform).

Lemma failed_removals_app (a b : list fs_event) :
  failed_removals (a ++ b) = (failed_removals a ++ failed_removals b)%list.
Proof. apply omap_app. Qed.

(** No run of the loop body makes a delete that finds nothing. *)
Lemma batch_run_trace (file : FileStorage) (w w' : world) (r r' : batch_response) :
  batch_run P file w r w' r' ->
  exists events, trace w' = (trace w ++ events)%list /\ failed_removals events = [].
Proof.
  intros Hrun.
  destruct (decide (validated file = true)) as [Hv|Hv].
  - apply validated_true in Hv as (Hname & Hext & Hsize).
    destruct (batch_run_cleaned_up P _ _ _ _ _ Hname Hext Hsize Hrun)
      as (_ & events & Ht & Hf & _).
    eauto.
  - exists []. rewrite app_nil_r. split; [|reflexivity].
    destruct Hrun; try reflexivity; exfalso; apply Hv, validated_true; auto.
Qed.

(** A run of the loop body leaves an absent staged input absent, and removes
    its own. *)
Lemma batch_run_keeps_inputs_absent (file g : FileStorage) (w w' : world)
    (r r' : batch_response) :
  batch_run P file w r w' r' ->
  files w !! input_path_of P g = None -> files w' !! input_path_of P g = None.
Proof.
  intros Hrun Habs.
  destruct (decide (input_path_of P g = input_path_of P file)) as [E|E].
  - rewrite E in *.
    destruct (decide (validated file = true)) as [Hv|Hv].
    + apply validated_true in Hv as (Hname & Hext & Hsize).
      exact (proj1 (batch_run_cleaned_up P _ _ _ _ _ Hname Hext Hsize Hrun)).
    + destruct Hrun; try assumption; exfalso; apply Hv, validated_true; auto.
  - rewrite (batch_run_frame P _ _ _ _ _ _ Hrun E (input_is_no_output P g file)).
    exact Habs.
Qed.

Lemma batch_runs_keep_inputs_absent (files0 : list FileStorage) (g : FileStorage)
    (w w' : world) (r r' : batch_response) :
  batch_runs P files0 w r w' r' ->
  files w !! input_path_of P g = None -> files w' !! input_path_of P g = None.
Proof.
  induction 1 as [|file rest w r w1 r1 w2 r2 Hrun Hruns IH]; [auto|].
  intros Habs. apply IH. exact (batch_run_keeps_inputs_absent _ _ _ _ _ _ Hrun Habs).
Qed.

Lemma batch_runs_clean (files0 : list FileStorage) (w w' : world) (r r' : batch_response) :
  batch_runs P files0 w r w' r' ->
  (forall file, file ∈ files0 -> validated file = true ->
     files w' !! input_path_of P file = None) /\
  exists events, trace w' = (trace w ++ events)%list /\ failed_removals events = [].
Proof.
  induction 1 as [w r|file rest w r w1 r1 w2 r2 Hrun Hruns [IHabs (ev2 & Ht2 & Hf2)]].
  - split; [intros file Hin; now apply elem_of_nil in Hin|].
    exists []. now rewrite app_nil_r.
  - split.
    + intros g Hin Hv. apply elem_of_cons in Hin as [->|Hin]; [|now apply IHabs].
      apply (batch_runs_keep_inputs_absent _ _ _ _ _ _ Hruns).
      apply validated_true in Hv as (Hname & Hext & Hsize).
      exact (proj1 (batch_run_cleaned_up P _ _ _ _ _ Hname Hext Hsize Hrun)).
    + destruct (batch_run_trace _ _ _ _ _ Hrun) as (ev1 & Ht1 & Hf1).
      exists (ev1 ++ ev2)%list. rewrite Ht2, Ht1, <- app_assoc. split; [reflexivity|].
      now rewrite failed_removals_app, Hf1, Hf2.
Qed.

(** X6: when a batch of at most 150 files returns, none of the uploads that
    passed validation is still staged, whatever happened to it and to the
    files after it, and over the whole batch no delete found its file
    missing. *)
Theorem batch_leaves_no_staged_input (request_files : MultiDict) (w : world) :
  (length (md_getlist "files[]" request_files) <= 150)%nat ->
  (forall file,
     file ∈ md_getlist "files[]" request_files -> validated file = true ->
     files (snd (batch_convert_images P request_files w)) !! input_path_of P file = None) /\
  exists events,
    trace (snd (batch_convert_images P request_files w)) = (trace w ++ events)%list /\
    failed_removals events = [].
Proof.
  intros Hlen.
  destruct (md_getlist "files[]" request_files) as [|file rest] eqn:Hlist.
  { rewrite (batch_convert_images_empty P _ w Hlist). cbn [snd].
    split; [intros file Hin; now apply elem_of_nil in Hin|].
    exists []. now rewrite app_nil_r. }
  destruct (batch_convert_images_loop P request_files w) as (w' & r' & -> & Hruns);
    [now rewrite Hlist..|].
  rewrite Hlist in Hruns. cbn [snd]. exact (batch_runs_clean _ _ _ _ _ Hruns).
Qed.

(** What one run of the loop body does to the success entries: nothing, or
    one more entry for the JPEG it left at its output path. *)
Lemma batch_run_successes (file : FileStorage) (w w' : world) (r r' : batch_response) :
  batch_run P file w r w' r' ->
  successful_conversions r' = successful_conversions r \/
  exists s,
    successful_conversions r' = (successful_conversions r ++ [s])%list /\
    s_output_path s = output_path_of P file /\ on_disk P w' s.
Proof.
  destruct 1 as [| | | | | |jpeg Hname Hext Hsize Hs Hc Hn]; try (left; reflexivity).
  right. eexists. split; [reflexivity|]. split; [reflexivity|].
  split; [now exists file|]. exists jpeg. cbn [s_output_path s_output_size_mb].
  split; [apply lookup_output_after_unstage|]. split; [assumption|reflexivity].
Qed.

Lemma on_disk_frame (file : FileStorage) (w w' : world) (r r' : batch_response)
    (s : success_entry) :
  batch_run P file w r w' r' -> s_output_path s <> output_path_of P file ->
  on_disk P w s -> on_disk P w' s.
Proof.
  intros Hrun Hne [[g Hg] (data & Hfile & Hsize & Hmb)].
  split; [now exists g|]. exists data. split; [|auto].
  rewrite (batch_run_frame P _ _ _ _ _ _ Hrun); [assumption| |assumption].
  rewrite Hg. intros E. symmetry in E. exact (input_is_no_output P file g E).
Qed.

Lemma batch_runs_on_disk (files0 : list FileStorage) (w w' : world) (r r' : batch_response) :
  batch_runs P files0 w r w' r' ->
  NoDup (map (output_path_of P) files0) ->
  Forall (on_disk P w) (successful_conversions r) ->
  (forall s, s ∈ successful_conversions r ->
     s_output_path s ∉ map (output_path_of P) files0) ->
  Forall (on_disk P w') (successful_conversions r').
Proof.
  induction 1 as [w r|file rest w r w1 r1 w2 r2 Hrun Hruns IH]; [auto|].
  cbn [map]. intros Hnd Hall Hfresh. apply NoDup_cons in Hnd as [Hf Hnd].
  assert (Forall (on_disk P w1) (successful_conversions r)) as Hold.
  { apply Forall_forall. intros s Hs.
    apply (on_disk_frame _ _ _ _ _ _ Hrun).
    - intros E. apply (Hfresh s Hs). rewrite E. apply elem_of_cons. now left.
    - rewrite Forall_forall in Hall. now apply Hall. }
  apply IH; [assumption| |].
  - destruct (batch_run_successes _ _ _ _ _ Hrun) as [->|(s & -> & _ & Hs)];
      [assumption|].
    apply Forall_app. split; [assumption|]. now apply Forall_singleton.
  - intros s Hs Hin.
    destruct (batch_run_successes _ _ _ _ _ Hrun) as [E|(s' & E & Hpath & _)];
      rewrite E in Hs.
    + apply (Hfresh s Hs). apply elem_of_cons. now right.
    + apply elem_of_app in Hs as [Hs|Hs].
      * apply (Hfresh s Hs). apply elem_of_cons. now right.
      * apply list_elem_of_singleton in Hs. subst s'. rewrite Hpath in Hin. contradiction.
Qed.

(** X7: in a batch of at most 150 files whose output paths are pairwise
    different, every success the response reports is backed by a file when
    the handler returns: its output path holds a JPEG of at most 10 MiB whose
    size in MB, rounded to two decimals, is the reported one. *)
Theorem batch_successes_are_on_disk (request_files : MultiDict) (w w' : world)
    (r' : batch_response) (status : Z) :
  (length (md_getlist "files[]" request_files) <= 150)%nat ->
  NoDup (map (output_path_of P) (md_getlist "files[]" request_files)) ->
  batch_convert_images P request_files w = (inr (BatchJson r', status), w') ->
  Forall (on_disk P w') (successful_conversions r').
Proof.
  intros Hlen Hnd Hrun.
  destruct (md_getlist "files[]" request_files) as [|file rest] eqn:Hlist.
  { rewrite (batch_convert_images_empty P _ w Hlist) in Hrun. discriminate. }
  destruct (batch_convert_images_loop P request_files w) as (w1 & r1 & E & Hruns);
    [now rewrite Hlist..|].
  rewrite Hlist in Hruns. rewrite E in Hrun. injection Hrun as -> _ ->.
  apply (batch_runs_on_disk _ _ _ _ _ Hruns Hnd); [constructor|].
  intros s Hs. now apply elem_of_nil in Hs.
Qed.

End BatchWorld.

(** ** The converter for any square bound *)

Section SquareBound.

Context (P : Platform).

(** X8: for every square bound [(m, m)] with [m >= 1], not only the
    handlers' 2800, and every image with sides between 1 and 2^31, the image
    the converter encodes fits the bound, is in neither dimension larger
    than the decoded one (the converter never upscales), has both sides at
    least 1, and is the decoded image itself when that already fits. *)
Theorem bounded_fits_and_never_upscales (img : Image) (m : Z) (w : world) :
  0 < width img < 2 ^ 31 -> 0 < height img < 2 ^ 31 -> 0 < m ->
  exists img',
    bounded P img (m, m) w = (inr img', w) /\
    width img' <= m /\ height img' <= m /\
    1 <= width img' <= width img /\ 1 <= height img' <= height img /\
    (Z.max (width img) (height img) <= m -> img' = img) /\
    (m < Z.max (width img) (height img) -> Z.max (width img') (height img') = m).
Proof.
  intros Hw Hh Hm.
  destruct (bounded_square P img m w Hw Hh Hm) as (img' & Hb & Hsmall & Hlarge).
  exists img'. split; [exact Hb|].
  destruct (Z.le_gt_cases (Z.max (width img) (height img)) m) as [Hfit|Hbig].
  - rewrite (Hsmall Hfit). repeat split; lia.
  - destruct (Hlarge ltac:(lia)) as (_ & Hmax & Hmin & Hx & Hy & _).
    repeat split; lia.
Qed.

End SquareBound.

(** ** Sizes in messages and entries *)

(** The size a success entry reports lies between 0 and 10 MB. *)
Lemma reported_size_bounds (n : Z) :
  0 <= n <= MAX_OUTPUT_FILE_SIZE ->
  (0 <= PyFloat.round2 (PyFloat.megabytes n))%Q /\
  (PyFloat.round2 (PyFloat.megabytes n) <= 10)%Q.
Proof.
  intros Hn. unfold MAX_OUTPUT_FILE_SIZE in Hn.
  assert (0 <= PyFloat.round_half_even (PyFloat.megabytes n * 100) <= 1000) as Hk.
  { apply round_half_even_bounds; unfold PyFloat.megabytes;
      change (1024 * 1024) with 1048576; q_to_z; lia. }
  unfold PyFloat.round2.
  generalize dependent (PyFloat.round_half_even (PyFloat.megabytes n * 100)).
  intros k Hk. split; q_to_z; lia.
Qed.

(** The reasons the batch loop gives for a failure. *)
Definition known_reason (reason : string) : Prop :=
  reason = "File has no name" \/ reason = "Invalid file type" \/
  reason = "File size exceeds 1024.0MB limit" \/ reason = "Processing error" \/
  reason = "Conversion failed" \/
  exists n, MAX_OUTPUT_FILE_SIZE < n /\ reason = size_message n.

(** A well-formed success entry: an output path of the form
    [converted/<name>.jpg] and a size between 0 and 10 MB. *)
Definition sound_success (s : success_entry) : Prop :=
  (exists stem, s_output_path s = "converted/" +:+ stem +:+ ".jpg") /\
  (0 <= s_output_size_mb s)%Q /\ (s_output_size_mb s <= 10)%Q.

Section BatchEntries.

Context (P : Platform).

Lemma batch_run_entries (file : FileStorage) (w w' : world) (r r' : batch_response) :
  batch_run P file w r w' r' ->
  Forall sound_success (successful_conversions r) ->
  Forall (fun f => known_reason (f_reason f)) (failed_conversions r) ->
  Forall sound_success (successful_conversions r') /\
  Forall (fun f => known_reason (f_reason f)) (failed_conversions r').
Proof.
  unfold known_reason.
  destruct 1 as [| | | | |jpeg ? ? ? ? ? Hn|jpeg ? ? ? ? ? Hn]; intros Hs Hf;
    cbn [with_failed with_successful successful_conversions failed_conversions];
    (split; [try assumption|try assumption]);
    try (apply Forall_app; split; [assumption|]; apply Forall_singleton;
         cbn [f_reason]; eauto 10).
  unfold sound_success. cbn [s_output_path s_output_size_mb]. split.
  - rewrite output_path_of_eq. unfold output_filename_of. eauto.
  - apply reported_size_bounds. lia.
Qed.

Lemma batch_runs_entries (files0 : list FileStorage) (w w' : world) (r r' : batch_response) :
  batch_runs P files0 w r w' r' ->
  Forall sound_success (successful_conversions r) ->
  Forall (fun f => known_reason (f_reason f)) (failed_conversions r) ->
  Forall sound_success (successful_conversions r') /\
  Forall (fun f => known_reason (f_reason f)) (failed_conversions r').
Proof.
  induction 1 as [|file rest w r w1 r1 w2 r2 Hrun Hruns IH]; [auto|].
  intros Hs Hf. destruct (batch_run_entries _ _ _ _ _ Hrun Hs Hf). now apply IH.
Qed.

(** X9: every entry of a batch response is well-formed.  A success entry
    names an output path of the form [converted/<name>.jpg] and reports a
    size between 0 and 10 MB; a failure entry gives one of six reasons: no
    name, invalid type, input over 1024.0 MB, processing error, conversion
    failed, or the message for an output over 10 MiB. *)
Theorem batch_entries_are_well_formed (request_files : MultiDict) (w w' : world)
    (r' : batch_response) (status : Z) :
  batch_convert_images P request_files w = (inr (BatchJson r', status), w') ->
  Forall sound_success (successful_conversions r') /\
  Forall (fun f => known_reason (f_reason f)) (failed_conversions r').
Proof.
  intros Hrun.
  destruct (md_getlist "files[]" request_files) as [|file rest] eqn:Hlist.
  { rewrite (batch_convert_images_empty P _ w Hlist) in Hrun. discriminate. }
  destruct (le_gt_dec (length (file :: rest)) 150) as [Hlen|Hlen].
  2:{ rewrite (batch_convert_images_too_many P request_files w) in Hrun
        by now rewrite Hlist.
      discriminate. }
  destruct (batch_convert_images_loop P request_files w) as (w1 & r1 & E & Hruns);
    [now rewrite Hlist..|].
  rewrite E in Hrun. injection Hrun as -> _ ->.
  apply (batch_runs_entries _ _ _ _ _ Hruns); constructor.
Qed.

End BatchEntries.

(** ** The converter, the request and the names *)

Section ConverterFrame.

Context (P : Platform).

(** X10: the converter writes nowhere but at its output path and deletes
    nothing: every other path, its input among them, holds afterwards what
    it held before, and what the call adds to the trace contains no delete,
    whether it returns [True] or [False]. *)
Theorem converter_writes_only_its_output
    (input_path output_path : string) (max_size : Z * Z) (w : world) (p : string) :
  p <> output_path ->
  files (snd (convert_tif_to_jpg P input_path output_path max_size w)) !! p
  = files w !! p /\
  exists events,
    trace (snd (convert_tif_to_jpg P input_path output_path max_size w))
    = (trace w ++ events)%list /\
    removals events = [] /\ failed_removals events = [].
Proof.
  intros Hp.
  destruct (convert_tif_to_jpg P input_path output_path max_size w) as [res w'] eqn:E.
  cbn [snd].
  destruct (convert_effect P _ _ _ _ _ _ E) as [[_ [jpeg ->]]|[_ [[d|] ->]]];
    cbn [leave write_file files trace].
  - rewrite lookup_insert_ne by congruence. split; [reflexivity|].
    exists [EvWrite output_path]. auto.
  - rewrite lookup_insert_ne by congruence. split; [reflexivity|].
    exists [EvWrite output_path]. auto.
  - split; [reflexivity|]. exists []. now rewrite app_nil_r.
Qed.

End ConverterFrame.

Lemma md_contains_by_getlist (key : string) (d1 d2 : MultiDict) :
  md_getlist key d1 = md_getlist key d2 -> md_contains key d1 = md_contains key d2.
Proof.
  intros E. destruct (md_contains key d1) eqn:E1; destruct (md_contains key d2) eqn:E2;
    try reflexivity.
  - apply md_contains_getlist in E2. rewrite <- E in E2.
    apply md_contains_getlist in E2. congruence.
  - apply md_contains_getlist in E1. rewrite E in E1.
    apply md_contains_getlist in E1. congruence.
Qed.

Section RequestFields.

Context (P : Platform).

(** X11: the handlers read one field each.  [POST /convert] depends only on
    the first [file] field of the request, and [POST /batch-convert] only on
    the [files[]] fields, in their order: two requests that agree on these
    get the same answer and leave the same world, whatever other fields they
    carry. *)
Theorem handlers_read_only_their_field (d1 d2 : MultiDict) (w : world) :
  (head (md_getlist "file" d1) = head (md_getlist "file" d2) ->
   convert_image P d1 w = convert_image P d2 w) /\
  (md_getlist "files[]" d1 = md_getlist "files[]" d2 ->
   batch_convert_images P d1 w = batch_convert_images P d2 w).
Proof.
  split.
  - intros E. destruct (head (md_getlist "file" d1)) as [file|] eqn:H1.
    + symmetry in E.
      now rewrite (convert_image_with_file P _ _ w H1),
                  (convert_image_with_file P _ _ w E).
    + symmetry in E. unfold convert_image.
      assert (md_contains "file" d1 = false) as ->
        by (apply md_contains_getlist; now destruct (md_getlist "file" d1)).
      assert (md_contains "file" d2 = false) as ->
        by (apply md_contains_getlist; now destruct (md_getlist "file" d2)).
      reflexivity.
  - intros E. unfold batch_convert_images.
    now rewrite (md_contains_by_getlist _ _ _ E), E.
Qed.

(** X12: the output is named after the staged name with its last extension
    replaced: when the sanitised name is [stem.ext] and [ext] holds no dot,
    the download name is [stem.jpg] and the output path
    [converted/stem.jpg], while the upload is staged at
    [uploads/stem.ext]. *)
Theorem output_name_replaces_last_extension (file : FileStorage) (stem ext : string) :
  secure_filename P (filename file) = stem +:+ "." +:+ ext ->
  PyStr.contains "." ext = false ->
  output_filename_of P file = stem +:+ ".jpg" /\
  output_path_of P file = "converted/" +:+ stem +:+ ".jpg" /\
  input_path_of P file = "uploads/" +:+ stem +:+ "." +:+ ext.
Proof.
  intros Hname Hext.
  assert (output_filename_of P file = stem +:+ ".jpg") as Hout.
  { unfold output_filename_of, staged_name, PyStr.rsplit1. rewrite Hname.
    assert (PyStr.rsplit_last "." (stem +:+ "." +:+ ext) = Some (stem, ext)) as ->
      by (apply rsplit_last_some; auto).
    reflexivity. }
  split; [exact Hout|]. split.
  - now rewrite output_path_of_eq, Hout.
  - rewrite input_path_of_eq. unfold staged_name. now rewrite Hname.
Qed.

End RequestFields.

Lemma prefix_app (a b : string) : String.prefix a (a +:+ b) = true.
Proof.
  induction a as [|c a IH]; [now destruct b|].
  change (String.prefix (String c a) (String c a +:+ b))
    with (if ascii_dec c c then String.prefix a (a +:+ b) else false).
  destruct (ascii_dec c c); [exact IH|congruence].
Qed.

Section StagingPaths.

Context (P : Platform).

(** X13: staged inputs and outputs live apart.  Every input path starts
    with [uploads/], every output path starts with [converted/], and so the
    output path of one upload is never the input path of another, nor of
    itself. *)
Theorem staging_paths_are_apart (f g : FileStorage) :
  String.prefix "uploads/" (input_path_of P f) = true /\
  String.prefix "converted/" (output_path_of P g) = true /\
  input_path_of P f <> output_path_of P g.
Proof.
  split; [rewrite input_path_of_eq; apply prefix_app|].
  split; [rewrite output_path_of_eq; apply prefix_app|].
  apply input_is_no_output.
Qed.

End StagingPaths.

(** ** The health endpoint *)

(** Line 18: Pillow's pixel ceiling is switched off. *)
Definition Image_MAX_IMAGE_PIXELS : option Z := None.

(** The dict [GET /health] answers with. *)
Record health_report := mkHealth {
  h_status : string;
  h_timestamp : string;
  h_max_input_file_size_mb : Q;
  h_max_output_file_size_mb : Q;
  h_max_image_pixels : string + Z
}.

(** Lines 55-65; [now] is [datetime.now().isoformat()]. *)
Definition health_check (now : string) : health_report * Z :=
  (mkHealth "healthy" now
     (PyFloat.megabytes MAX_INPUT_FILE_SIZE)
     (PyFloat.megabytes MAX_OUTPUT_FILE_SIZE)
     (match Image_MAX_IMAGE_PIXELS with
      | None => inl "unlimited"
      | Some n => inr n
      end),
   200).

(** X14: the limits [GET /health] reports are the ones the service
    enforces.  An upload passes the size check exactly when its size in MB
    is at most the reported input limit, an output of [n] bytes is within the
    output limit exactly when its size in MB is at most the reported output
    limit, and the pixel ceiling is reported as unlimited. *)
Theorem health_reports_the_enforced_limits (now : string) (file : FileStorage) (n : Z) :
  (fst (check_file_size file) = true <->
   (PyFloat.megabytes (stream_length file)
    <= h_max_input_file_size_mb (fst (health_check now)))%Q) /\
  (n <= MAX_OUTPUT_FILE_SIZE <->
   (PyFloat.megabytes n <= h_max_output_file_size_mb (fst (health_check now)))%Q) /\
  h_max_image_pixels (fst (health_check now)) = inl "unlimited" /\
  snd (health_check now) = 200.
Proof.
  rewrite check_file_size_answer, Z.leb_le.
  cbn [health_check fst snd h_max_input_file_size_mb h_max_output_file_size_mb
         h_max_image_pixels].
  unfold PyFloat.megabytes, MAX_INPUT_FILE_SIZE, MAX_OUTPUT_FILE_SIZE.
  change (1024 * 1024) with 1048576.
  change (1 * 1024 * 1024 * 1024) with 1073741824.
  change (10 * 1024 * 1024) with 10485760.
  repeat split; try reflexivity; q_to_z; lia.
Qed.

(** ** The further properties on the concrete platform *)

Lemma handlers_touch_only_their_paths_witness :
  head (md_getlist "file" [("file", Demo.small_tiff)]) = Some Demo.small_tiff /\
  "converted/old.jpg" <> input_path_of Demo.plain Demo.small_tiff /\
  "converted/old.jpg" <> output_path_of Demo.plain Demo.small_tiff /\
  files (snd (convert_image Demo.plain [("file", Demo.small_tiff)]
                (write_file "converted/old.jpg" [Byte.x07] Demo.empty_world)))
    !! "converted/old.jpg" = Some [Byte.x07].
Proof.
  assert (head (md_getlist "file" [("file", Demo.small_tiff)]) = Some Demo.small_tiff)
    as H1 by reflexivity.
  assert ("converted/old.jpg" <> input_path_of Demo.plain Demo.small_tiff) as H2
    by (vm_compute; discriminate).
  assert ("converted/old.jpg" <> output_path_of Demo.plain Demo.small_tiff) as H3
    by (vm_compute; discriminate).
  repeat (split; [assumption|]).
  rewrite (proj1 (handlers_touch_only_their_paths Demo.plain _ _
                    (write_file "converted/old.jpg" [Byte.x07] Demo.empty_world)
                    (mkBatch [] []) _ H1 H2 H3)).
  apply lookup_insert_eq.
Defined.

Lemma rejected_upload_touches_nothing_witness :
  head (md_getlist "file" [("file", Demo.text_file)]) = Some Demo.text_file /\
  validated Demo.text_file = false /\
  (exists msg,
     convert_image Demo.plain [("file", Demo.text_file)] Demo.empty_world
     = (inr (ErrorJson msg, 400), Demo.empty_world)).
Proof.
  assert (head (md_getlist "file" [("file", Demo.text_file)]) = Some Demo.text_file)
    as H1 by reflexivity.
  assert (validated Demo.text_file = false) as H2 by (vm_compute; reflexivity).
  repeat (split; [assumption|]).
  exact (proj1 (rejected_upload_touches_nothing Demo.plain _ _ Demo.empty_world
                  (mkBatch [] []) H1 H2)).
Defined.

Lemma sent_file_is_the_converted_upload_witness :
  convert_image Demo.plain [("file", Demo.small_tiff)] Demo.empty_world
  = (inr (JpegFile [Byte.x2a] "image/jpeg" "a.jpg", 200),
     snd (convert_image Demo.plain [("file", Demo.small_tiff)] Demo.empty_world)) /\
  exists file img img',
    head (md_getlist "file" [("file", Demo.small_tiff)]) = Some file /\
    image_open Demo.plain (stream file) = Some img /\
    fst (bounded Demo.plain img (2800, 2800) Demo.empty_world) = inr img' /\
    jpeg_encode Demo.plain img' 80 true = Encoded [Byte.x2a].
Proof.
  assert (convert_image Demo.plain [("file", Demo.small_tiff)] Demo.empty_world
          = (inr (JpegFile [Byte.x2a] "image/jpeg" "a.jpg", 200),
             snd (convert_image Demo.plain [("file", Demo.small_tiff)] Demo.empty_world)))
    as H1 by (vm_compute; reflexivity).
  split; [exact H1|].
  destruct (sent_file_is_the_converted_upload Demo.plain _ _ _ _ _ _ H1)
    as (file & img & img' & Hhead & _ & Hdec & Hb & Henc & _).
  exists file, img, img'. auto.
Defined.

Lemma batch_agrees_with_single_witness :
  head (md_getlist "file" [("file", Demo.small_tiff)]) = Some Demo.small_tiff /\
  convert_image Demo.plain [("file", Demo.small_tiff)] Demo.empty_world
  = (inr (JpegFile [Byte.x2a] "image/jpeg" "a.jpg", 200),
     snd (convert_image Demo.plain [("file", Demo.small_tiff)] Demo.empty_world)) /\
  batch_file Demo.plain Demo.small_tiff (Demo.empty_world, mkBatch [] [])
  = (inr tt,
     (snd (convert_image Demo.plain [("file", Demo.small_tiff)] Demo.empty_world),
      mkBatch [mkSuccess "a.tiff" (output_path_of Demo.plain Demo.small_tiff)
                 (PyFloat.round2 (PyFloat.megabytes 1))] [])).
Proof.
  assert (head (md_getlist "file" [("file", Demo.small_tiff)]) = Some Demo.small_tiff)
    as H1 by reflexivity.
  assert (convert_image Demo.plain [("file", Demo.small_tiff)] Demo.empty_world
          = (inr (JpegFile [Byte.x2a] "image/jpeg" "a.jpg", 200),
             snd (convert_image Demo.plain [("file", Demo.small_tiff)] Demo.empty_world)))
    as H2 by (vm_compute; reflexivity).
  repeat (split; [assumption|]).
  exact (batch_agrees_with_single Demo.plain _ _ _ _ (mkBatch [] []) _ _ _ H1 H2).
Defined.

Lemma batch_leaves_no_staged_input_witness :
  (length (md_getlist "files[]"
             [("files[]", Demo.small_tiff); ("files[]", Demo.broken_tiff)]) <= 150)%nat /\
  Demo.broken_tiff
    ∈ md_getlist "files[]" [("files[]", Demo.small_tiff); ("files[]", Demo.broken_tiff)] /\
  validated Demo.broken_tiff = true /\
  files (snd (batch_convert_images Demo.plain
                [("files[]", Demo.small_tiff); ("files[]", Demo.broken_tiff)]
                Demo.empty_world))
    !! input_path_of Demo.plain Demo.broken_tiff = None.
Proof.
  assert (length (md_getlist "files[]"
                    [("files[]", Demo.small_tiff); ("files[]", Demo.broken_tiff)]) <= 150)%nat
    as H1 by (cbn; lia).
  assert (Demo.broken_tiff
            ∈ md_getlist "files[]"
                [("files[]", Demo.small_tiff); ("files[]", Demo.broken_tiff)]) as H2
    by (cbn; apply elem_of_cons; right; apply elem_of_cons; now left).
  assert (validated Demo.broken_tiff = true) as H3 by (vm_compute; reflexivity).
  repeat (split; [assumption|]).
  exact (proj1 (batch_leaves_no_staged_input Demo.plain _ Demo.empty_world H1) _ H2 H3).
Defined.

Lemma batch_successes_are_on_disk_witness :
  (length (md_getlist "files[]"
             [("files[]", Demo.small_tiff); ("files[]", Demo.text_file)]) <= 150)%nat /\
  NoDup (map (output_path_of Demo.plain)
           (md_getlist "files[]"
              [("files[]", Demo.small_tiff); ("files[]", Demo.text_file)])) /\
  exists r' status w',
    batch_convert_images Demo.plain
      [("files[]", Demo.small_tiff); ("files[]", Demo.text_file)] Demo.empty_world
    = (inr (BatchJson r', status), w') /\
    length (successful_conversions r') = 1%nat /\
    Forall (on_disk Demo.plain w') (successful_conversions r').
Proof.
  assert (length (md_getlist "files[]"
                    [("files[]", Demo.small_tiff); ("files[]", Demo.text_file)]) <= 150)%nat
    as H1 by (cbn; lia).
  assert (NoDup (map (output_path_of Demo.plain)
                   (md_getlist "files[]"
                      [("files[]", Demo.small_tiff); ("files[]", Demo.text_file)])))
    as H2 by (apply NoDup_pair; vm_compute; discriminate).
  repeat (split; [assumption|]).
  destruct (batch_convert_images Demo.plain
              [("files[]", Demo.small_tiff); ("files[]", Demo.text_file)]
              Demo.empty_world) as [[e|[[msg|r'|d m n] status]] w'] eqn:E;
    try (vm_compute in E; discriminate).
  exists r', status, w'. split; [reflexivity|]. split.
  - vm_compute in E. injection E as <- _ _. reflexivity.
  - exact (batch_successes_are_on_disk Demo.plain _ Demo.empty_world w' r' status H1 H2 E).
Defined.

Lemma bounded_fits_and_never_upscales_witness :
  0 < width Demo.wide_image < 2 ^ 31 /\ 0 < height Demo.wide_image < 2 ^ 31 /\
  0 < 1000 /\
  exists img',
    bounded Demo.plain Demo.wide_image (1000, 1000) Demo.empty_world
    = (inr img', Demo.empty_world) /\
    width img' <= 1000 /\ height img' <= 1000.
Proof.
  assert (0 < width Demo.wide_image < 2 ^ 31) as H1 by (split; reflexivity).
  assert (0 < height Demo.wide_image < 2 ^ 31) as H2 by (split; reflexivity).
  assert (0 < 1000) as H3 by reflexivity.
  repeat (split; [assumption|]).
  destruct (bounded_fits_and_never_upscales Demo.plain Demo.wide_image 1000
              Demo.empty_world H1 H2 H3) as (img' & Hb & Hx & Hy & _).
  exists img'. auto.
Defined.

Lemma batch_entries_are_well_formed_witness :
  batch_convert_images Demo.plain
    [("files[]", Demo.small_tiff); ("files[]", Demo.broken_tiff)] Demo.empty_world
  = (inr (BatchJson
            (mkBatch [mkSuccess "a.tiff" "converted/a.jpg" (0 # 100)%Q]
                     [mkFailure "b.tif" "Conversion failed"]), 200),
     snd (batch_convert_images Demo.plain
            [("files[]", Demo.small_tiff); ("files[]", Demo.broken_tiff)]
            Demo.empty_world)) /\
  Forall sound_success [mkSuccess "a.tiff" "converted/a.jpg" (0 # 100)%Q] /\
  Forall (fun f => known_reason (f_reason f)) [mkFailure "b.tif" "Conversion failed"].
Proof.
  assert (batch_convert_images Demo.plain
            [("files[]", Demo.small_tiff); ("files[]", Demo.broken_tiff)] Demo.empty_world
          = (inr (BatchJson
                    (mkBatch [mkSuccess "a.tiff" "converted/a.jpg" (0 # 100)%Q]
                             [mkFailure "b.tif" "Conversion failed"]), 200),
             snd (batch_convert_images Demo.plain
                    [("files[]", Demo.small_tiff); ("files[]", Demo.broken_tiff)]
                    Demo.empty_world))) as H1 by (vm_compute; reflexivity).
  split; [exact H1|].
  exact (batch_entries_are_well_formed Demo.plain _ _ _ _ _ H1).
Defined.

Lemma converter_writes_only_its_output_witness :
  "uploads/a.tiff" <> "converted/a.jpg" /\
  files (snd (convert_tif_to_jpg Demo.plain "uploads/a.tiff" "converted/a.jpg" (2800, 2800)
                (write_file "uploads/a.tiff" (stream Demo.small_tiff) Demo.empty_world)))
    !! "uploads/a.tiff" = Some (stream Demo.small_tiff).
Proof.
  assert ("uploads/a.tiff" <> "converted/a.jpg") as H1 by discriminate.
  split; [exact H1|].
  rewrite (proj1 (converter_writes_only_its_output Demo.plain "uploads/a.tiff"
                    "converted/a.jpg" (2800, 2800)
                    (write_file "uploads/a.tiff" (stream Demo.small_tiff) Demo.empty_world)
                    "uploads/a.tiff" H1)).
  apply lookup_insert_eq.
Defined.

Lemma handlers_read_only_their_field_witness :
  head (md_getlist "file" [("note", Demo.text_file); ("file", Demo.small_tiff);
                           ("file", Demo.broken_tiff)])
  = head (md_getlist "file" [("file", Demo.small_tiff)]) /\
  convert_image Demo.plain
    [("note", Demo.text_file); ("file", Demo.small_tiff); ("file", Demo.broken_tiff)]
    Demo.empty_world
  = convert_image Demo.plain [("file", Demo.small_tiff)] Demo.empty_world.
Proof.
  assert (head (md_getlist "file" [("note", Demo.text_file); ("file", Demo.small_tiff);
                                   ("file", Demo.broken_tiff)])
          = head (md_getlist "file" [("file", Demo.small_tiff)])) as H1 by reflexivity.
  split; [exact H1|].
  exact (proj1 (handlers_read_only_their_field Demo.plain _ _ Demo.empty_world) H1).
Defined.

Lemma output_name_replaces_last_extension_witness :
  secure_filename Demo.plain (filename (mkFile "scan.v2.TIF" [] 0)) = "scan.v2" +:+ "." +:+ "TIF" /\
  PyStr.contains "." "TIF" = false /\
  output_filename_of Demo.plain (mkFile "scan.v2.TIF" [] 0) = "scan.v2.jpg" /\
  output_path_of Demo.plain (mkFile "scan.v2.TIF" [] 0) = "converted/scan.v2.jpg" /\
  input_path_of Demo.plain (mkFile "scan.v2.TIF" [] 0) = "uploads/scan.v2.TIF".
Proof.
  assert (secure_filename Demo.plain (filename (mkFile "scan.v2.TIF" [] 0))
          = "scan.v2" +:+ "." +:+ "TIF") as H1 by (vm_compute; reflexivity).
  assert (PyStr.contains "." "TIF" = false) as H2 by (vm_compute; reflexivity).
  repeat (split; [assumption|]).
  exact (output_name_replaces_last_extension Demo.plain _ _ _ H1 H2).
Defined.
